(** * Roadkill map: name normalisation, segment resolution and density

    A shallow embedding of the entity-resolution core of the roadkill map
    applications ([app.py], [roadkill_app_simple.py], [roadkill-map.py]).

    Python [str] values are sequences of Unicode code points, modelled as
    [list Z]; Python [float] values are IEEE binary64, modelled by the
    primitive floats of the kernel.  The external geometry functions
    ([shapely]'s [distance], the [haversine] package) are parameters of the
    resolver. *)

From Stdlib Require Import ZArith List Bool Lia String Ascii Floats Sorted.
Import ListNotations.

Local Open Scope Z_scope.

(** ** Python strings *)

Module PyStr.

(** A code point and a string of code points. *)
Definition char := Z.
Definition str := list char.

(** Literal of an ASCII-only Python string. *)
Definition lit (s : string) : str :=
  List.map (fun a => Z.of_N (N_of_ascii a)) (list_ascii_of_string s).

Definition char_eqb (a b : char) : bool := Z.eqb a b.

Fixpoint str_eqb (a b : str) : bool :=
  match a, b with
  | [], [] => true
  | x :: a', y :: b' => char_eqb x y && str_eqb a' b'
  | _, _ => false
  end.

(** [s.startswith(p)] *)
Fixpoint startswith (p s : str) : bool :=
  match p, s with
  | [], _ => true
  | _ :: _, [] => false
  | x :: p', y :: s' => char_eqb x y && startswith p' s'
  end.

(** [s.endswith(p)] *)
Definition endswith (p s : str) : bool := startswith (rev p) (rev s).

(** [sub in s]: [sub] occurs at some position of [s]. *)
Fixpoint contains (sub s : str) : bool :=
  startswith sub s ||
  match s with
  | [] => false
  | _ :: t => contains sub t
  end.

(** [s.replace(old, new)]: the occurrences of [old] are found from the left
    and do not overlap.  [skip] counts the characters of a found occurrence
    that are still to be passed over. *)
Fixpoint replace_from (old new : str) (skip : nat) (s : str) : str :=
  match s with
  | [] => []
  | c :: t =>
      match skip with
      | S k => replace_from old new k t
      | O =>
          if startswith old s
          then new ++ replace_from old new (pred (List.length old)) t
          else c :: replace_from old new O t
      end
  end.

Definition replace (old new s : str) : str :=
  match old with
  | [] => new ++ flat_map (fun c => c :: new) s
  | _ :: _ => replace_from old new O s
  end.

(** [str.isspace] of one code point, the table of CPython. *)
Definition isspace (c : char) : bool :=
  ((0x09 <=? c) && (c <=? 0x0D)) || ((0x1C <=? c) && (c <=? 0x20))
  || (c =? 0x85) || (c =? 0xA0) || (c =? 0x1680)
  || ((0x2000 <=? c) && (c <=? 0x200A))
  || (c =? 0x2028) || (c =? 0x2029) || (c =? 0x202F) || (c =? 0x205F)
  || (c =? 0x3000).

Fixpoint lstrip (s : str) : str :=
  match s with
  | [] => []
  | c :: t => if isspace c then lstrip t else s
  end.

Definition rstrip (s : str) : str := rev (lstrip (rev s)).

(** [s.strip()] *)
Definition strip (s : str) : str := rstrip (lstrip s).

(** [str.maketrans(d)] for a dict of one-character keys and values, and
    [s.translate(table)]. *)
Definition table := list (char * char).

Fixpoint table_get (t : table) (c : char) : option char :=
  match t with
  | [] => None
  | (k, v) :: t' => if char_eqb k c then Some v else table_get t' c
  end.

Definition translate (t : table) (s : str) : str :=
  List.map (fun c => match table_get t c with Some v => v | None => c end) s.

(** [s.split(sep)] for a separator of one code point. *)
Fixpoint split (sep : char) (s : str) : list str :=
  match s with
  | [] => [[]]
  | c :: t =>
      if char_eqb c sep then [] :: split sep t
      else match split sep t with
           | p :: ps => (c :: p) :: ps
           | [] => [[c]]
           end
  end.

(** Order of Python strings: lexicographic on the code points. *)
Fixpoint str_compare (a b : str) : comparison :=
  match a, b with
  | [], [] => Eq
  | [], _ :: _ => Lt
  | _ :: _, [] => Gt
  | x :: a', y :: b' =>
      match Z.compare x y with
      | Eq => str_compare a' b'
      | c => c
      end
  end.

End PyStr.

Import PyStr.

(** ** Python values reaching [normalize_name] *)

(** A cell of a data frame column: a string, or one of the non-string values
    pandas produces ([None], [nan], numbers). *)
Inductive pyobj : Type :=
| PyNone
| PyStr (s : str)
| PyInt (n : Z)
| PyFloat (f : float)
| PyBool (b : bool).

Definition isinstance_str (v : pyobj) : bool :=
  match v with
  | PyStr _ => true
  | _ => false
  end.

(** Code points named in the sources. *)
Definition ideographic_space : char := 0x3000.   (* '　' *)
Definition space : char := 0x20.
Definition road_char : char := 0x9053.           (* '道' *)
Definition wave_dash : char := 0x301C.           (* '〜' *)

(** [{chr(0xFF01 + i): chr(0x21 + i) for i in range(94)}] *)
Definition fullwidth_table : table :=
  List.map (fun i => (0xFF01 + Z.of_nat i, 0x21 + Z.of_nat i)) (seq 0 94).

(** ** Data frames, dictionaries and geometry *)

(** A [dict] with string keys whose iteration order matters: the pairs in
    insertion order, with distinct keys. *)
Fixpoint dict_get {V : Type} (d : list (str * V)) (k : str) : option V :=
  match d with
  | [] => None
  | (k', v) :: d' => if str_eqb k' k then Some v else dict_get d' k
  end.

(** [d.get(k, default)] *)
Definition dict_get_or {V : Type} (d : list (str * V)) (k : str) (default : V) : V :=
  match dict_get d k with
  | Some v => v
  | None => default
  end.

(** [Series.unique()]: the distinct values in order of first appearance. *)
Fixpoint unique_from (seen : list str) (l : list str) : list str :=
  match l with
  | [] => []
  | a :: l' =>
      if existsb (str_eqb a) seen then unique_from seen l'
      else a :: unique_from (a :: seen) l'
  end.

Definition unique (l : list str) : list str := unique_from [] l.

(** [df.groupby(keys).agg(...)] with the default [sort=True]: one row per
    distinct key, rows in increasing key order; [init] starts the aggregate
    of a group from its first record and [step] folds a later one in. *)
Section GroupBy.

Variables (K R A : Type).
Variable key : R -> K.
Variable cmp : K -> K -> comparison.
Variable init : R -> A.
Variable step : A -> R -> A.

Fixpoint group_insert (r : R) (gs : list (K * A)) : list (K * A) :=
  match gs with
  | [] => [(key r, init r)]
  | (k, a) :: gs' =>
      match cmp (key r) k with
      | Eq => (k, step a r) :: gs'
      | Lt => (key r, init r) :: gs
      | Gt => (k, a) :: group_insert r gs'
      end
  end.

Definition groupby (rs : list R) : list (K * A) :=
  fold_left (fun gs r => group_insert r gs) rs [].

End GroupBy.

Arguments group_insert {K R A} key cmp init step r gs.
Arguments groupby {K R A} key cmp init step rs.

(** The aggregate of the group with key [k], if there is one. *)
Definition group_get {K A : Type} (cmp : K -> K -> comparison) (k : K)
           (gs : list (K * A)) : option A :=
  match find (fun g => match cmp k (fst g) with Eq => true | _ => false end) gs with
  | Some g => Some (snd g)
  | None => None
  end.

(** Rows in strictly increasing key order. *)
Definition key_lt {K A : Type} (cmp : K -> K -> comparison) (g h : K * A) : Prop :=
  cmp (fst g) (fst h) = Lt.

(** The number of records whose key is [k]. *)
Definition key_count {K R : Type} (key : R -> K) (cmp : K -> K -> comparison)
           (k : K) (rs : list R) : Z :=
  Z.of_nat (List.length
              (filter (fun r => match cmp k (key r) with Eq => true | _ => false end) rs)).

(** Order of a two-column group key. *)
Definition pair_compare (a b : str * str) : comparison :=
  match str_compare (fst a) (fst b) with
  | Eq => str_compare (snd a) (snd b)
  | c => c
  end.

(** A [shapely] point: [x] is the longitude, [y] the latitude. *)
Module Shapely.
Record Point : Type := { x : float; y : float }.
End Shapely.

(** [Series.fillna(other)] on one [float64] cell: [NaN] marks a missing
    value. *)
Definition fillna (a b : float) : float := if is_nan a then b else a.

(** An [int64] count (a group size, below 2^63) as a [float64] operand of a
    division. *)
Definition float_of_count (n : Z) : float := PrimFloat.of_uint63 (Uint63.of_Z n).

(** ** app.py *)

Module App.

(** [suffixes = ['ＩＣ', 'IC', 'ＪＣＴ', 'JCT', 'ＳＩＣ', 'SIC', 'ＳＡ', 'SA', 'ＰＡ', 'PA',
    'ＴＢ', 'TB']] *)
Definition suffixes : list str :=
  [ [0xFF29; 0xFF23]; lit "IC";
    [0xFF2A; 0xFF23; 0xFF34]; lit "JCT";
    [0xFF33; 0xFF29; 0xFF23]; lit "SIC";
    [0xFF33; 0xFF21]; lit "SA";
    [0xFF30; 0xFF21]; lit "PA";
    [0xFF34; 0xFF22]; lit "TB" ].

(** [for suffix in suffixes: name = name.replace(suffix, '')] *)
Definition strip_suffixes (name : str) : str :=
  fold_left (fun n suffix => replace suffix [] n) suffixes name.

Definition normalize_name (name : pyobj) (is_route : bool) : str :=
  match name with
  | PyStr name =>
      let name := translate fullwidth_table name in
      let name := replace [ideographic_space] [space] name in
      if is_route then
        let name :=
          if endswith [road_char] name then replace [road_char] [] name
          else name in
        strip name
      else
        strip (strip_suffixes name)
  | _ => []
  end.


(** The grouped incident table handed to [get_map_data]. *)
Record IncidentRecord : Type := {
    csv_route_name : str;        (* '道路名' *)
    csv_section_name : str;      (* '区間' *)
    csv_length : float           (* '区間長_km' *)
  }.

Record SectionCount : Type := {
    sc_route_name : str;         (* '道路名' *)
    sc_section_name : str;       (* '区間' *)
    sc_count : Z;                (* '件数' *)
    sc_length : float;           (* '区間長_km' *)
    sc_start_norm : str;         (* '始点_norm' *)
    sc_end_norm : str            (* '終点_norm' *)
  }.

(** The group key [key_cols] of a record. *)
Definition key_cols (r : IncidentRecord) : str * str :=
  (csv_route_name r, csv_section_name r).

(** [filtered_df.groupby(key_cols).agg(件数=size, 区間長_km=first)]; [first]
    is the first value of the group that is not missing. *)
Definition group_counts (df : list IncidentRecord) : list ((str * str) * (Z * float)) :=
  groupby key_cols pair_compare
          (fun r => (1, csv_length r))
          (fun a r => (fst a + 1, fillna (snd a) (csv_length r)))
          df.

(** Column [i] of [str.split('〜', expand=True)] in one row: the part, or
    [None] where the row has fewer parts. *)
Definition split_column (i : nat) (parts : list str) : pyobj :=
  match nth_error parts i with
  | Some p => PyStr p
  | None => PyNone
  end.

(** [section_counts] with the two normalised columns added. *)
Definition section_counts (df : list IncidentRecord) : list SectionCount :=
  let groups := group_counts df in
  let split_sections := List.map (fun g => split wave_dash (snd (fst g))) groups in
  let has_column_1 := existsb (fun parts => (2 <=? List.length parts)%nat) split_sections in
  List.map (fun g =>
         let parts := split wave_dash (snd (fst g)) in
         {| sc_route_name := fst (fst g);
            sc_section_name := snd (fst g);
            sc_count := fst (snd g);
            sc_length := snd (snd g);
            sc_start_norm := normalize_name (split_column 0 parts) false;
            sc_end_norm :=
              if has_column_1 then normalize_name (split_column 1 parts) false
              else [] |})
      groups.

Definition DISTANCE_THRESHOLD_M : float := 3000%float.

Record MapRow : Type := {
    mr_route_name : str;         (* "路線名" *)
    mr_section : str;            (* "区間" *)
    mr_count : Z;                (* "件数" *)
    mr_length : float;           (* "区間長_km" *)
    start_lon : float;
    start_lat : float;
    end_lon : float;
    end_lat : float
  }.

Section Resolver.

Import Shapely.

(** The body of [get_map_data]; the candidate filter and the nearest-pair
    loop read the same in [roadkill_app_simple.py].

    The merged line geometry of a route, its truth value, the planar
    distance of a point to it (in degrees) and the great-circle distance
    of two (latitude, longitude) pairs (in km) come from [shapely] and
    [haversine]. *)
Variable geom : Type.
Variable geom_bool : geom -> bool.
Variable distance : Point -> geom -> float.
Variable haversine : float * float -> float * float -> float.

Variable _ic_locations : list (str * list Point).
Variable _route_geometries : list (str * geom).

(** The first key of [_route_geometries] that contains the normalised
    route name. *)
Definition first_containing (norm_csv_name : str) (shp_routes_raw : list str)
  : option str :=
  find (contains norm_csv_name) shp_routes_raw.

Definition route_name_map (csv_routes_raw : list str) : list (str * str) :=
  let shp_routes_raw := List.map fst _route_geometries in
  flat_map (fun csv_name =>
              match first_containing (normalize_name (PyStr csv_name) true)
                                     shp_routes_raw with
              | Some shp_name => [(csv_name, shp_name)]
              | None => []
              end)
           csv_routes_raw.

(** [[p for p in candidates if p.distance(geom) * 111000 < DISTANCE_THRESHOLD_M]] *)
Definition valid_points (target_route_geom : geom) (candidates : list Point)
  : list Point :=
  filter (fun p => (distance p target_route_geom * 111000 <? DISTANCE_THRESHOLD_M)%float)
         candidates.

(** One turn of the loop over [product(valid_starts, valid_ends)]. *)
Definition best_pair_step (st : float * option (Point * Point))
           (pr : Point * Point) : float * option (Point * Point) :=
  let '(min_dist, best_pair) := st in
  let '(start_point, end_point) := pr in
  let dist := haversine (y start_point, x start_point) (y end_point, x end_point) in
  if ((0 <? dist) && (dist <? min_dist))%float then (dist, Some pr)
  else (min_dist, best_pair).

Definition best_pair_loop (pairs : list (Point * Point))
  : float * option (Point * Point) :=
  fold_left best_pair_step pairs (infinity, None).

Definition best_pair (valid_starts valid_ends : list Point)
  : option (Point * Point) :=
  snd (best_pair_loop (list_prod valid_starts valid_ends)).

(** The end points of one row, [None] where the loop body [continue]s or
    no pair is chosen. *)
Definition resolve (name_map : list (str * str)) (row : SectionCount)
  : option (Point * Point) :=
  match dict_get name_map (sc_route_name row) with
  | None => None
  | Some official_route_name =>
      match official_route_name with
      | [] => None
      | _ :: _ =>
          match dict_get _route_geometries official_route_name with
          | None => None
          | Some target_route_geom =>
              if negb (geom_bool target_route_geom) then None
              else
                let start_candidates :=
                  dict_get_or _ic_locations (sc_start_norm row) [] in
                let end_candidates :=
                  dict_get_or _ic_locations (sc_end_norm row) [] in
                match start_candidates, end_candidates with
                | [], _ | _, [] => None
                | _ :: _, _ :: _ =>
                    let valid_starts := valid_points target_route_geom start_candidates in
                    let valid_ends := valid_points target_route_geom end_candidates in
                    match valid_starts, valid_ends with
                    | [], _ | _, [] => None
                    | _ :: _, _ :: _ => best_pair valid_starts valid_ends
                    end
                end
          end
      end
  end.

Definition get_map_data (_section_counts : list SectionCount) : list MapRow :=
  let csv_routes_raw := unique (List.map sc_route_name _section_counts) in
  let name_map := route_name_map csv_routes_raw in
  flat_map (fun row =>
              match resolve name_map row with
              | Some (p0, p1) =>
                  [ {| mr_route_name := sc_route_name row;
                       mr_section := sc_section_name row;
                       mr_count := sc_count row;
                       mr_length := sc_length row;
                       start_lon := x p0; start_lat := y p0;
                       end_lon := x p1; end_lat := y p1 |} ]
              | None => []
              end)
           _section_counts.

(** [map_df = get_map_data(section_counts, ic_locations, route_geometries)]
    on the filtered incident table. *)
Definition map_df (filtered_df : list IncidentRecord) : list MapRow :=
  get_map_data (section_counts filtered_df).

End Resolver.

(** [row['件数'] / row['区間長_km'] if row['区間長_km'] > 0 else 0] *)
Definition count_per_km (count : Z) (length_km : float) : float :=
  if (0 <? length_km)%float then (float_of_count count / length_km)%float
  else 0%float.

End App.

(** ** roadkill_app_simple.py *)

Module AppSimple.

Definition suffixes : list str :=
  [ [0xFF29; 0xFF23]; lit "IC";
    [0xFF2A; 0xFF23; 0xFF34]; lit "JCT";
    [0xFF33; 0xFF29; 0xFF23]; lit "SIC";
    [0xFF33; 0xFF21]; lit "SA";
    [0xFF30; 0xFF21]; lit "PA";
    [0xFF34; 0xFF22]; lit "TB" ].

Definition normalize_name (name : pyobj) (is_route : bool) : str :=
  match name with
  | PyStr name =>
      let name := translate fullwidth_table name in
      let name := replace [ideographic_space] [space] name in
      if is_route then
        let name :=
          if endswith [road_char] name then replace [road_char] [] name
          else name in
        strip name
      else
        strip (fold_left (fun n suffix => replace suffix [] n) suffixes name)
  | _ => []
  end.

End AppSimple.

(** ** roadkill-map.py (pre-cut reference segments) *)

Module RoadkillMap.

Definition normalize_name (name : pyobj) : str :=
  match name with
  | PyStr name =>
      let name := translate fullwidth_table name in
      let name := replace [ideographic_space] [space] name in
      strip name
  | _ => []
  end.

(** A cell of a column that [merge] may leave missing. *)
Definition fillna_opt {A : Type} (a b : option A) : option A :=
  match a with
  | Some _ => a
  | None => b
  end.

(** [a.fillna(b)] for two columns over the same [RangeIndex]. *)
Fixpoint fillna_series {A : Type} (fill : A -> A -> A) (a b : list A) : list A :=
  match a, b with
  | [], _ => []
  | v :: a', [] => v :: fillna_series fill a' []
  | v :: a', w :: b' => fill v w :: fillna_series fill a' b'
  end.

Record IncidentRecord : Type := {
    csv_section_name : str;      (* '区間' *)
    csv_length : float;          (* '区間長_km' *)
    csv_route_name : str         (* '道路名' *)
  }.

(** [roadkill_df['section_norm']] *)
Definition section_norm_of (r : IncidentRecord) : str :=
  normalize_name (PyStr (csv_section_name r)).

Record SectionCount : Type := {
    section_norm : str;
    sc_count : Z;                (* '件数' *)
    sc_length : float;           (* '区間長_km' *)
    sc_route_name : str          (* '道路名' *)
  }.

(** [filtered_df.groupby('section_norm').agg(件数=size, 区間長_km=first,
    道路名=first)]; [first] is the first value of the group that is not
    missing. *)
Definition section_counts (filtered_df : list IncidentRecord) : list SectionCount :=
  match filtered_df with
  | [] => []
  | _ :: _ =>
      List.map (fun g => {| section_norm := fst g;
                       sc_count := fst (fst (snd g));
                       sc_length := snd (fst (snd g));
                       sc_route_name := snd (snd g) |})
          (groupby section_norm_of str_compare
                   (fun r => (1, csv_length r, csv_route_name r))
                   (fun a r => (fst (fst a) + 1,
                                fillna (snd (fst a)) (csv_length r),
                                snd a))
                   filtered_df)
  end.

Section Sections.

(** The line geometry of a reference segment ([shapely]). *)
Variable geom : Type.

(** A row of [sections_gdf]; a null attribute or geometry is [None]. *)
Record Section_ : Type := {
    start_IC : option str;
    end_IC : option str;
    geometry : option geom
  }.

(** [.astype(str)] on a column of strings and nulls. *)
Definition astype_str (v : option str) : str :=
  match v with
  | Some s => s
  | None => lit "None"
  end.

Definition start_norm (s : Section_) : str :=
  normalize_name (PyStr (astype_str (start_IC s))).
Definition end_norm (s : Section_) : str :=
  normalize_name (PyStr (astype_str (end_IC s))).
Definition section_norm_key_1 (s : Section_) : str :=
  start_norm s ++ [wave_dash] ++ end_norm s.
Definition section_norm_key_2 (s : Section_) : str :=
  end_norm s ++ [wave_dash] ++ start_norm s.

(** [pd.merge(left, right, left_on=..., right_on='section_norm',
    how='left')]: every left row in order, once per matching right row,
    or once with the right columns missing. *)
Definition merge_left (left : list Section_) (left_on : Section_ -> str)
           (right : list SectionCount) : list (Section_ * option SectionCount) :=
  flat_map (fun l =>
              match filter (fun r => str_eqb (left_on l) (section_norm r)) right with
              | [] => [(l, None)]
              | ms => List.map (fun r => (l, Some r)) ms
              end)
           left.

(** The right-hand columns of a merged row. *)
Definition col_count (m : Section_ * option SectionCount) : option Z :=
  option_map sc_count (snd m).
Definition col_length (m : Section_ * option SectionCount) : float :=
  match snd m with
  | Some r => sc_length r
  | None => nan
  end.
Definition col_route_name (m : Section_ * option SectionCount) : option str :=
  option_map sc_route_name (snd m).

Record MapRow : Type := {
    mg_section : Section_;
    mg_count : Z;              (* '件数' *)
    mg_length : float;         (* '区間長_km' *)
    mg_route_name : option str (* '道路名' *)
  }.

(** Assignment of three columns to the rows of [map_gdf_1]. *)
Fixpoint assign (rows : list (Section_ * option SectionCount))
         (counts : list Z) (lengths : list float) (names : list (option str))
  : list MapRow :=
  match rows, counts, lengths, names with
  | m :: rows', c :: counts', l :: lengths', n :: names' =>
      {| mg_section := fst m; mg_count := c; mg_length := l; mg_route_name := n |}
        :: assign rows' counts' lengths' names'
  | _, _, _, _ => []
  end.

Definition map_gdf (all_sections_map : list Section_)
           (section_counts : list SectionCount) : list MapRow :=
  let map_gdf_1 := merge_left all_sections_map section_norm_key_1 section_counts in
  let map_gdf_2 := merge_left all_sections_map section_norm_key_2 section_counts in
  let counts :=
    List.map (fun c => match c with Some n => n | None => 0 end)
        (fillna_series fillna_opt (List.map col_count map_gdf_1)
                       (List.map col_count map_gdf_2)) in
  let lengths :=
    fillna_series fillna (List.map col_length map_gdf_1)
                  (List.map col_length map_gdf_2) in
  let names :=
    fillna_series fillna_opt (List.map col_route_name map_gdf_1)
                  (List.map col_route_name map_gdf_2) in
  filter (fun row => match geometry (mg_section row) with
                     | Some _ => true
                     | None => false
                     end)
         (assign map_gdf_1 counts lengths names).

(** The section count row whose key is [k]. *)
Definition lookup_section (section_counts : list SectionCount) (k : str)
  : option SectionCount :=
  find (fun r => str_eqb k (section_norm r)) section_counts.

Definition has_geometry (s : Section_) : bool :=
  match geometry s with
  | Some _ => true
  | None => false
  end.

(** The attribution of incidents to one reference segment as the
    specification words it: the key start〜end is looked up first, then the
    key end〜start; the first that is found gives the count, and without a
    match the count is zero and the length stays missing. *)
Definition attributed (section_counts : list SectionCount) (s : Section_) : MapRow :=
  let first := lookup_section section_counts (section_norm_key_1 s) in
  let second := lookup_section section_counts (section_norm_key_2 s) in
  {| mg_section := s;
     mg_count :=
       match first, second with
       | Some r, _ => sc_count r
       | None, Some r => sc_count r
       | None, None => 0
       end;
     mg_length :=
       fillna (match first with Some r => sc_length r | None => nan end)
              (match second with Some r => sc_length r | None => nan end);
     mg_route_name :=
       match first, second with
       | Some r, _ => Some (sc_route_name r)
       | None, Some r => Some (sc_route_name r)
       | None, None => None
       end |}.

End Sections.

Arguments has_geometry {geom} s.
Arguments attributed {geom} section_counts s.
Arguments start_IC {geom} s.
Arguments end_IC {geom} s.
Arguments geometry {geom} s.
Arguments mg_section {geom} m.
Arguments mg_count {geom} m.
Arguments mg_length {geom} m.
Arguments mg_route_name {geom} m.

(** [row['件数'] / row['区間長_km'] if pd.notna(row['区間長_km']) and
    row['区間長_km'] > 0 else 0] *)
Definition count_per_km (count : Z) (length_km : float) : float :=
  if negb (is_nan length_km) && (0 <? length_km)%float
  then (float_of_count count / length_km)%float
  else 0%float.

End RoadkillMap.

(** ** Output predicates of the normaliser *)

(** A code point of the full-width ASCII block U+FF01 .. U+FF5E. *)
Definition is_fullwidth (c : char) : bool := (0xFF01 <=? c) && (c <=? 0xFF5E).

(** Neither full-width ASCII nor the ideographic space. *)
Definition folded (c : char) : bool :=
  negb (is_fullwidth c) && negb (c =? ideographic_space).

(** The first and the last code point, when there are any, are not white
    space. *)
Definition no_outer_space (s : str) : bool :=
  match s with [] => true | c :: _ => negb (isspace c) end
  && match rev s with [] => true | c :: _ => negb (isspace c) end.

(** A normalised key on which a second normalisation has nothing left to
    strip: in ROUTE mode it does not end with the road character, in PLACE
    mode none of the designators occurs in it. *)
Definition settled (is_route : bool) (y : str) : bool :=
  if is_route then negb (endswith [road_char] y)
  else forallb (fun suffix => negb (contains suffix y)) App.suffixes.

(** The great-circle distance the loop of [get_map_data] computes for one
    candidate pair. *)
Definition pair_distance (haversine : float * float -> float * float -> float)
           (pr : Shapely.Point * Shapely.Point) : float :=
  haversine (Shapely.y (fst pr), Shapely.x (fst pr))
            (Shapely.y (snd pr), Shapely.x (snd pr)).

(** ** Sample data *)

(** A stand-in for the great-circle distance on one meridian: the gap of the
    latitudes, in degrees. *)
Definition meridian_gap (a b : float * float) : float := abs (fst a - fst b).

(** Three interchanges on the meridian 140 E. *)
Definition ic_south : Shapely.Point := {| Shapely.x := 140; Shapely.y := 36 |}.
Definition ic_mid : Shapely.Point := {| Shapely.x := 140; Shapely.y := 37 |}.
Definition ic_north : Shapely.Point := {| Shapely.x := 140; Shapely.y := 38 |}.

(** A point-to-line distance that is the same for every point: [3000 / 111000]
    degrees, which the conversion factor takes to 3000 m exactly. *)
Definition on_threshold (_ : Shapely.Point) (_ : unit) : float := 0x1.bacf914c1bad0p-6.

(** A point-to-line distance of zero. *)
Definition on_route (_ : Shapely.Point) (_ : unit) : float := 0.

(** "Mito" and "Naka". *)
Definition mito : str := lit "Mito".
Definition naka : str := lit "Naka".

Definition sample_row (start_norm end_norm : str) : App.SectionCount :=
  {| App.sc_route_name := lit "Joban";
     App.sc_section_name := start_norm ++ [wave_dash] ++ end_norm;
     App.sc_count := 1;
     App.sc_length := 10;
     App.sc_start_norm := start_norm;
     App.sc_end_norm := end_norm |}.

(** A pre-cut reference segment from Mito to Naka and one incident whose
    section label names the two interchanges in the opposite order. *)
Definition precut_segment : RoadkillMap.Section_ unit :=
  {| RoadkillMap.start_IC := Some mito;
     RoadkillMap.end_IC := Some naka;
     RoadkillMap.geometry := Some tt |}.

Definition precut_incident_reversed : RoadkillMap.IncidentRecord :=
  {| RoadkillMap.csv_section_name := naka ++ [wave_dash] ++ mito;
     RoadkillMap.csv_length := 10;
     RoadkillMap.csv_route_name := lit "Joban" |}.

(** Two incidents on the same section, one written "MitoIC〜NakaIC" and one
    with full-width designators, "MitoＩＣ〜NakaＩＣ". *)
Definition incident_halfwidth : App.IncidentRecord :=
  {| App.csv_route_name := lit "Joban";
     App.csv_section_name := lit "MitoIC" ++ [wave_dash] ++ lit "NakaIC";
     App.csv_length := 10 |}.

Definition incident_fullwidth : App.IncidentRecord :=
  {| App.csv_route_name := lit "Joban";
     App.csv_section_name :=
       lit "Mito" ++ [0xFF29; 0xFF23] ++ [wave_dash] ++ lit "Naka" ++ [0xFF29; 0xFF23];
     App.csv_length := 10 |}.

(** Reference data for them: one route and the two interchanges. *)
Definition sample_ic_locations : list (str * list Shapely.Point) :=
  [(mito, [ic_south]); (naka, [ic_mid])].

Definition sample_route_geometries : list (str * unit) := [(lit "Joban", tt)].

(** The start and end labels of a section label, PLACE-normalised. *)
Definition start_norm_of (section : str) : str :=
  App.normalize_name (App.split_column 0 (split wave_dash section)) false.

Definition end_norm_of (section : str) : str :=
  App.normalize_name (App.split_column 1 (split wave_dash section)) false.

(** The rows of [section_counts] for the two sample incidents. *)
Definition row_halfwidth : App.SectionCount :=
  {| App.sc_route_name := lit "Joban";
     App.sc_section_name := App.csv_section_name incident_halfwidth;
     App.sc_count := 1;
     App.sc_length := 10;
     App.sc_start_norm := mito;
     App.sc_end_norm := naka |}.

Definition row_fullwidth : App.SectionCount :=
  {| App.sc_route_name := lit "Joban";
     App.sc_section_name := App.csv_section_name incident_fullwidth;
     App.sc_count := 1;
     App.sc_length := 10;
     App.sc_start_norm := mito;
     App.sc_end_norm := naka |}.

(** ** process_data.py *)

Module ProcessData.

(** [suffixes = ['JCT', 'SIC', 'SA', 'PA', 'TB', 'IC']] *)
Definition suffixes : list str :=
  [lit "JCT"; lit "SIC"; lit "SA"; lit "PA"; lit "TB"; lit "IC"].

Definition add_ic_suffix (name : pyobj) : pyobj :=
  match name with
  | PyStr s =>
      if existsb (fun suffix => endswith suffix s) suffixes then PyStr s
      else PyStr (s ++ lit "IC")
  | _ => name
  end.

End ProcessData.

(** ** app.py: [load_data] and the sidebar filters *)

(** [sorted(values)] by insertion; [leb] is the order of the values. *)
Section Sorted.

Variable A : Type.
Variable leb : A -> A -> bool.

Fixpoint sorted_insert (a : A) (l : list A) : list A :=
  match l with
  | [] => [a]
  | b :: l' => if leb b a then b :: sorted_insert a l' else a :: l
  end.

Definition sorted (l : list A) : list A :=
  fold_left (fun acc a => sorted_insert a acc) l [].

End Sorted.

Arguments sorted_insert {A} leb a l.
Arguments sorted {A} leb l.

(** [Series.unique()] on a column of integers. *)
Fixpoint unique_Z_from (seen : list Z) (l : list Z) : list Z :=
  match l with
  | [] => []
  | a :: l' =>
      if existsb (Z.eqb a) seen then unique_Z_from seen l'
      else a :: unique_Z_from (a :: seen) l'
  end.

Definition unique_Z (l : list Z) : list Z := unique_Z_from [] l.

Definition str_leb (a b : str) : bool :=
  match str_compare a b with
  | Gt => false
  | _ => true
  end.

Module AppData.

(** A row of [ic_gdf] and a row of [sections_gdf]: the name columns may be
    null. *)
Record Joint : Type := {
    N06_018 : pyobj;                 (* IC_NAME_COL *)
    joint_geometry : Shapely.Point
  }.

Section LoadData.

(** A line of the highway shapefile and the union of the lines of a route
    ([GeoSeries.union_all]) come from [shapely]. *)
Variable line : Type.
Variable geom : Type.
Variable union_all : list line -> geom.

Record HighwaySection : Type := {
    N06_007 : pyobj;                 (* ROUTE_NAME_COL *)
    section_geometry : line
  }.

(** [ic_gdf.groupby('ic_name_norm')['geometry'].apply(list).to_dict()] *)
Definition ic_locations (ic_gdf : list Joint) : list (str * list Shapely.Point) :=
  groupby (fun r => App.normalize_name (N06_018 r) false) str_compare
          (fun r => [joint_geometry r])
          (fun a r => a ++ [joint_geometry r])
          ic_gdf.

(** [sections_gdf.groupby('route_name_norm')['geometry'].apply(union_all)
    .to_dict()] *)
Definition route_geometries (sections_gdf : list HighwaySection) : list (str * geom) :=
  List.map (fun g => (fst g, union_all (snd g)))
      (groupby (fun r => App.normalize_name (N06_007 r) true) str_compare
               (fun r => [section_geometry r])
               (fun a r => a ++ [section_geometry r])
               sections_gdf).

End LoadData.

Arguments N06_007 {line} h.
Arguments section_geometry {line} h.

(** A row of [roadkill_df] with the columns the filters read. *)
Record Row : Type := {
    incident : App.IncidentRecord;
    csv_month : Z;                   (* '月' *)
    csv_hour : Z;                    (* '時' *)
    csv_day_of_week : str;           (* '曜' *)
    csv_weather : str;               (* '排除時天候' *)
    csv_animal : str                 (* '小分類' *)
  }.


(** [day_of_week_options = ['月', '火', '水', '木', '金', '土', '日']] *)
Definition day_of_week_options : list str :=
  [[0x6708]; [0x706B]; [0x6C34]; [0x6728]; [0x91D1]; [0x571F]; [0x65E5]].

Definition month_options (roadkill_df : list Row) : list Z :=
  sorted Z.leb (unique_Z (List.map csv_month roadkill_df)).
Definition hour_options (roadkill_df : list Row) : list Z :=
  sorted Z.leb (unique_Z (List.map csv_hour roadkill_df)).
Definition weather_options (roadkill_df : list Row) : list str :=
  sorted str_leb (unique (List.map csv_weather roadkill_df)).
Definition animal_options (roadkill_df : list Row) : list str :=
  sorted str_leb (unique (List.map csv_animal roadkill_df)).




(** [if selected: filtered_df = filtered_df[filtered_df[col].isin(selected)]] *)
Definition select_isin {A : Type} (eqb : A -> A -> bool) (get : Row -> A)
           (selected : list A) (df : list Row) : list Row :=
  match selected with
  | [] => df
  | _ :: _ => filter (fun r => existsb (eqb (get r)) selected) df
  end.

(** The branch ['複数選択'] of the filters. *)
Definition filter_multi (roadkill_df : list Row)
           (selected_months selected_hours : list Z)
           (selected_days_of_week selected_weathers selected_animals : list str)
  : list Row :=
  let filtered_df := roadkill_df in
  let filtered_df := select_isin Z.eqb csv_month selected_months filtered_df in
  let filtered_df := select_isin Z.eqb csv_hour selected_hours filtered_df in
  let filtered_df := select_isin str_eqb csv_day_of_week selected_days_of_week filtered_df in
  let filtered_df := select_isin str_eqb csv_weather selected_weathers filtered_df in
  select_isin str_eqb csv_animal selected_animals filtered_df.

End AppData.

(** ** roadkill-map.py: colours and the table below the map *)

Module RoadkillMapView.

(** [get_color(value, max_value)]; [gradient value vmax] stands for the
    colour [matplotlib] gives to [value] on the scale from 0 to [vmax]. *)
Definition get_color (gradient : float -> float -> list Z) (value max_value : float)
  : list Z :=
  if (value <=? 0)%float then [200; 200; 200; 40]
  else gradient value (if (0 <? max_value)%float then max_value else 1%float).

(** The mask of [display_df = map_gdf[map_gdf['件数'] > 0]], before the rows
    are sorted by density. *)
Definition display_mask {geom : Type} (map_gdf : list (RoadkillMap.MapRow geom))
  : list (RoadkillMap.MapRow geom) :=
  filter (fun row => 0 <? RoadkillMap.mg_count row) map_gdf.

End RoadkillMapView.

(** ** Further predicates *)

(** The string ends with one of the designators of [add_ic_suffix]. *)
Definition ends_with_designator (s : str) : bool :=
  existsb (fun suffix => endswith suffix s) ProcessData.suffixes.

(** What the two folding steps of [normalize_name] do to one code point. *)
Definition fold_char (c : char) : char :=
  let c := if is_fullwidth c then c - 0xFEE0 else c in
  if c =? ideographic_space then space else c.

(** The interchange name [process_data.py] writes for the name [s]. *)
Definition suffixed (s : str) : str :=
  match ProcessData.add_ic_suffix (PyStr s) with
  | PyStr t => t
  | _ => s
  end.

(** The sum of a column of counts. *)
Definition total (counts : list Z) : Z := fold_right Z.add 0 counts.

(** * Properties of the string operations *)

Section StringFacts.

Lemma char_eqb_eq (a b : char) : char_eqb a b = true <-> a = b.
Proof. apply Z.eqb_eq. Qed.

Lemma str_eqb_eq (a b : str) : str_eqb a b = true <-> a = b.
Proof.
  revert b; induction a as [|x a IH]; intros [|y b]; simpl;
    try (split; [discriminate | discriminate]); try tauto.
  rewrite andb_true_iff, char_eqb_eq, IH.
  split; [intros [-> ->]; reflexivity | intros E; inversion E; auto].
Qed.

Lemma str_eqb_refl (a : str) : str_eqb a a = true.
Proof. apply str_eqb_eq; reflexivity. Qed.

Lemma str_eqb_sym (a b : str) : str_eqb a b = str_eqb b a.
Proof.
  destruct (str_eqb a b) eqn:E.
  - apply str_eqb_eq in E; subst; symmetry; apply str_eqb_refl.
  - destruct (str_eqb b a) eqn:E'; [|reflexivity].
    apply str_eqb_eq in E'; subst; rewrite str_eqb_refl in E; discriminate.
Qed.

(** *** translate *)

Lemma table_get_offset (a b : Z) (n s : nat) (c : char) :
  table_get (List.map (fun i => (a + Z.of_nat i, b + Z.of_nat i)) (seq s n)) c
  = if (a + Z.of_nat s <=? c) && (c <? a + Z.of_nat s + Z.of_nat n)
    then Some (c - a + b) else None.
Proof.
  revert s; induction n as [|n IH]; intros s; cbn [seq List.map table_get].
  - destruct (Z.leb_spec (a + Z.of_nat s) c), (Z.ltb_spec c (a + Z.of_nat s + Z.of_nat 0));
      simpl; try reflexivity; lia.
  - unfold char_eqb. destruct (Z.eqb_spec (a + Z.of_nat s) c) as [E|E]; [|rewrite IH];
      destruct (Z.leb_spec (a + Z.of_nat s) c),
               (Z.ltb_spec c (a + Z.of_nat s + Z.of_nat (S n)));
      try destruct (Z.leb_spec (a + Z.of_nat (S s)) c);
      try destruct (Z.ltb_spec c (a + Z.of_nat (S s) + Z.of_nat n));
      simpl; try reflexivity; try lia; f_equal; lia.
Qed.

(** The table of [normalize_name] in closed form: the full-width block is
    moved down by the fixed offset [0xFEE0]. *)
Lemma fullwidth_table_get (c : char) :
  table_get fullwidth_table c = if is_fullwidth c then Some (c - 0xFEE0) else None.
Proof.
  unfold fullwidth_table. rewrite table_get_offset. unfold is_fullwidth.
  change (Z.of_nat 0) with 0. change (Z.of_nat 94) with 94.
  destruct (Z.leb_spec (0xFF01 + 0) c), (Z.ltb_spec c (0xFF01 + 0 + 94)),
           (Z.leb_spec 0xFF01 c), (Z.leb_spec c 0xFF5E);
    simpl; try reflexivity; try lia; f_equal; lia.
Qed.

Lemma translate_not_fullwidth (s : str) :
  forallb (fun c => negb (is_fullwidth c)) (translate fullwidth_table s) = true.
Proof.
  unfold translate. induction s as [|c s IH]; cbn [List.map forallb]; [reflexivity|].
  rewrite IH, andb_true_r, fullwidth_table_get.
  destruct (is_fullwidth c) eqn:E; [|rewrite E; reflexivity].
  unfold is_fullwidth in *. apply andb_true_iff in E.
  apply negb_true_iff, andb_false_iff. lia.
Qed.

Lemma translate_fixed (s : str) :
  forallb (fun c => negb (is_fullwidth c)) s = true ->
  translate fullwidth_table s = s.
Proof.
  unfold translate. induction s as [|c s IH]; cbn [List.map forallb]; [reflexivity|].
  rewrite andb_true_iff, negb_true_iff. intros [E H].
  rewrite fullwidth_table_get, E, (IH H). reflexivity.
Qed.

(** *** replace *)

Lemma replace_from_In (old new : str) (s : str) :
  forall k c, In c (replace_from old new k s) -> In c s \/ In c new.
Proof.
  induction s as [|a s IH]; simpl; intros k c H; [tauto|].
  destruct k as [|k].
  - destruct (startswith old (a :: s)).
    + apply in_app_or in H. destruct H as [H|H]; [tauto|].
      apply IH in H. tauto.
    + destruct H as [H|H]; [tauto|]. apply IH in H. tauto.
  - apply IH in H. tauto.
Qed.

Lemma replace_In (old new s : str) (c : char) :
  In c (replace old new s) -> In c s \/ In c new.
Proof.
  destruct old as [|o old]; simpl.
  - intros H. apply in_app_or in H. destruct H as [H|H]; [tauto|].
    apply in_flat_map in H. destruct H as [d [Hd [H|H]]]; subst; tauto.
  - apply replace_from_In.
Qed.

(** Removing a one-character string leaves no occurrence of it. *)
Lemma replace_char_gone (a : char) (new s : str) :
  ~ In a new -> ~ In a (replace [a] new s).
Proof.
  intros Hn. simpl. induction s as [|c s IH]; simpl; [tauto|].
  unfold char_eqb. destruct (a =? c) eqn:E; simpl.
  - intros H. apply in_app_or in H. tauto.
  - apply Z.eqb_neq in E. intros [H|H]; [congruence | tauto].
Qed.

Lemma contains_char_false (a : char) (s : str) :
  ~ In a s -> contains [a] s = false.
Proof.
  induction s as [|c s IH]; simpl; [reflexivity|].
  intros H. unfold char_eqb. destruct (a =? c) eqn:E.
  - apply Z.eqb_eq in E. subst. tauto.
  - simpl. apply IH. tauto.
Qed.

Lemma replace_absent (old new s : str) :
  contains old s = false -> replace old new s = s.
Proof.
  destruct old as [|o old]; [destruct s; discriminate|].
  unfold replace. induction s as [|c s IH]; [reflexivity|].
  intros H. change (contains (o :: old) (c :: s))
    with (startswith (o :: old) (c :: s) || contains (o :: old) s) in H.
  apply orb_false_iff in H. destruct H as [H1 H2].
  cbn [replace_from]. rewrite H1, (IH H2). reflexivity.
Qed.

(** *** strip *)

Lemma lstrip_In (s : str) (c : char) : In c (lstrip s) -> In c s.
Proof.
  induction s as [|a s IH]; simpl; [tauto|].
  destruct (isspace a); simpl; tauto.
Qed.

Lemma strip_In (s : str) (c : char) : In c (strip s) -> In c s.
Proof.
  unfold strip, rstrip. intros H.
  apply in_rev, lstrip_In in H. apply in_rev in H. apply lstrip_In, H.
Qed.

Lemma lstrip_head (s : str) :
  match lstrip s with [] => true | c :: _ => negb (isspace c) end = true.
Proof.
  induction s as [|a s IH]; simpl; [reflexivity|].
  destruct (isspace a) eqn:E; [exact IH | simpl; rewrite E; reflexivity].
Qed.

Lemma lstrip_fixed (s : str) :
  match s with [] => true | c :: _ => negb (isspace c) end = true -> lstrip s = s.
Proof.
  destruct s as [|a s]; simpl; [reflexivity|].
  intros E. apply negb_true_iff in E. rewrite E. reflexivity.
Qed.

(** [lstrip] drops a prefix. *)
Lemma lstrip_suffix (s : str) : exists w, s = w ++ lstrip s.
Proof.
  induction s as [|a s [w IH]]; simpl; [exists []; reflexivity|].
  destruct (isspace a).
  - exists (a :: w). simpl. f_equal. exact IH.
  - exists []. reflexivity.
Qed.

(** [rstrip] keeps a prefix, hence the first character. *)
Lemma rstrip_prefix (s : str) : exists w, s = rstrip s ++ w.
Proof.
  unfold rstrip. destruct (lstrip_suffix (rev s)) as [w Hw].
  exists (rev w). rewrite <- rev_app_distr, <- Hw, rev_involutive. reflexivity.
Qed.

Lemma strip_no_outer_space (s : str) : no_outer_space (strip s) = true.
Proof.
  unfold no_outer_space. apply andb_true_iff. split.
  - unfold strip. pose proof (lstrip_head s) as Hh.
    destruct (rstrip_prefix (lstrip s)) as [w Hw].
    destruct (rstrip (lstrip s)) as [|c r]; [reflexivity|].
    rewrite Hw in Hh. exact Hh.
  - unfold strip, rstrip. rewrite rev_involutive. apply lstrip_head.
Qed.

Lemma strip_fixed (s : str) : no_outer_space s = true -> strip s = s.
Proof.
  unfold no_outer_space. rewrite andb_true_iff. intros [H1 H2].
  unfold strip, rstrip. rewrite (lstrip_fixed s H1), (lstrip_fixed (rev s) H2).
  apply rev_involutive.
Qed.

End StringFacts.

(** * Comparisons of binary64 numbers *)

Section FloatFacts.

Lemma SFcompare_antisym (u v : spec_float) :
  SFcompare v u = option_map CompOpp (SFcompare u v).
Proof.
  destruct u as [su|su| |su mu eu], v as [sv|sv| |sv mv ev]; simpl;
    try reflexivity;
    try (destruct su; reflexivity); try (destruct sv; reflexivity);
    try (destruct su, sv; reflexivity).
  pose proof (Pos.compare_cont_antisym mu mv Eq) as A. simpl in A.
  destruct su, sv; simpl; try reflexivity;
    rewrite (Z.compare_antisym eu ev); destruct (eu ?= ev)%Z; simpl;
    try reflexivity; rewrite A; reflexivity.
Qed.

Lemma SFcompare_None (u v : spec_float) :
  SFcompare u v = None -> u = S754_nan \/ v = S754_nan.
Proof.
  destruct u as [su|su| |su mu eu], v as [sv|sv| |sv mv ev]; simpl;
    try discriminate; auto.
Qed.

Lemma SFcompare_nan_r (u : spec_float) : SFcompare u S754_nan = None.
Proof. destruct u; reflexivity. Qed.

Lemma SFcompare_refl (u : spec_float) :
  u <> S754_nan -> SFcompare u u = Some Eq.
Proof.
  destruct u as [s|s| |s m e]; simpl; intros H; try reflexivity.
  - destruct s; reflexivity.
  - congruence.
  - rewrite Z.compare_refl, Pos.compare_cont_refl. destruct s; reflexivity.
Qed.

(** Two numbers above zero that are neither smaller nor equal are larger. *)
Lemma float_lt_total (a b : float) :
  (0 <? a)%float = true -> (0 <? b)%float = true ->
  (a <? b)%float = false -> (a =? b)%float = false -> (b <? a)%float = true.
Proof.
  rewrite !ltb_spec, eqb_spec. unfold SFltb, SFeqb.
  rewrite (SFcompare_antisym (Prim2SF a) (Prim2SF b)).
  intros Ha Hb.
  destruct (SFcompare (Prim2SF a) (Prim2SF b)) as [[| |]|] eqn:E;
    cbn [option_map CompOpp]; try discriminate; try reflexivity.
  apply SFcompare_None in E. destruct E as [E|E]; rewrite E in *.
  - rewrite SFcompare_nan_r in Ha. discriminate.
  - rewrite SFcompare_nan_r in Hb. discriminate.
Qed.

Lemma float_le_not_gt (a b : float) :
  (a <=? b)%float = true -> (b <? a)%float = false.
Proof.
  rewrite leb_spec, ltb_spec. unfold SFleb, SFltb.
  rewrite (SFcompare_antisym (Prim2SF a) (Prim2SF b)).
  destruct (SFcompare (Prim2SF a) (Prim2SF b)) as [[| |]|]; simpl;
    intros H; try discriminate; reflexivity.
Qed.

(** Nothing is below a missing value. *)
Lemma float_nan_not_gt (a b : float) :
  is_nan a = true -> (b <? a)%float = false.
Proof.
  unfold is_nan. rewrite negb_true_iff, eqb_spec, ltb_spec. unfold SFeqb, SFltb.
  intros H. assert (E : Prim2SF a = S754_nan).
  { destruct (Prim2SF a) as [s|s| |s m e] eqn:Ea; try reflexivity;
      rewrite SFcompare_refl in H; discriminate. }
  rewrite E, SFcompare_nan_r. reflexivity.
Qed.

End FloatFacts.

(** * The candidate filter and the nearest-pair loop *)

Section BestPairFacts.

Import Shapely.

Variable haversine : float * float -> float * float -> float.

Lemma best_pair_step_eq (m : float) (b : option (Point * Point)) (pr : Point * Point) :
  App.best_pair_step haversine (m, b) pr
  = if ((0 <? pair_distance haversine pr) && (pair_distance haversine pr <? m))%float
    then (pair_distance haversine pr, Some pr)
    else (m, b).
Proof. destruct pr as [s e]. reflexivity. Qed.

(** The loop either leaves its state alone or ends on a pair of the list
    with a distance above zero, remembered as the minimum. *)
Lemma best_pair_loop_inv (pairs : list (Point * Point)) :
  forall m b m' b',
    fold_left (App.best_pair_step haversine) pairs (m, b) = (m', b') ->
    (m' = m /\ b' = b) \/
    exists q, In q pairs /\ b' = Some q /\ m' = pair_distance haversine q /\
              (0 <? pair_distance haversine q)%float = true.
Proof.
  induction pairs as [|pr pairs IH]; intros m b m' b' H; cbn [fold_left] in H.
  - inversion H. auto.
  - rewrite best_pair_step_eq in H.
    destruct ((0 <? pair_distance haversine pr) && (pair_distance haversine pr <? m))%float eqn:E.
    + apply IH in H. destruct H as [[-> ->]|[q [Hq H]]].
      * right. exists pr. apply andb_true_iff in E. simpl. tauto.
      * right. exists q. simpl. tauto.
    + apply IH in H. destruct H as [H|[q [Hq H]]]; [auto|].
      right. exists q. simpl. tauto.
Qed.

(** Pairs that do not beat the current minimum leave the state alone. *)
Lemma best_pair_loop_keeps (pairs : list (Point * Point)) (m : float)
      (b : option (Point * Point)) :
  (forall q, In q pairs ->
             ((0 <? pair_distance haversine q)
              && (pair_distance haversine q <? m))%float = false) ->
  fold_left (App.best_pair_step haversine) pairs (m, b) = (m, b).
Proof.
  induction pairs as [|pr pairs IH]; intros H; cbn [fold_left]; [reflexivity|].
  rewrite best_pair_step_eq, (H pr (or_introl eq_refl)).
  apply IH. intros q Hq. apply H. right. exact Hq.
Qed.

Lemma best_pair_positive (starts ends : list Point) (pr : Point * Point) :
  App.best_pair haversine starts ends = Some pr ->
  In pr (list_prod starts ends) /\ (0 <? pair_distance haversine pr)%float = true.
Proof.
  unfold App.best_pair, App.best_pair_loop. intros H.
  destruct (fold_left (App.best_pair_step haversine) (list_prod starts ends)
                      (infinity, None)) as [m' b'] eqn:E.
  simpl in H. subst b'. apply best_pair_loop_inv in E.
  destruct E as [[_ E]|[q [Hq [E [_ Hp]]]]]; [discriminate|].
  inversion E; subst. auto.
Qed.

Lemma best_pair_all_zero (starts ends : list Point) :
  (forall s e, In s starts -> In e ends -> pair_distance haversine (s, e) = 0%float) ->
  App.best_pair haversine starts ends = None.
Proof.
  intros H. unfold App.best_pair, App.best_pair_loop.
  rewrite best_pair_loop_keeps; [reflexivity|].
  intros [s e] Hq. apply in_prod_iff in Hq. rewrite (H s e); tauto.
Qed.

End BestPairFacts.

Section ResolverFacts.

Import Shapely.

Variable geom : Type.
Variable geom_bool : geom -> bool.
Variable distance : Point -> geom -> float.
Variable haversine : float * float -> float * float -> float.

Lemma valid_points_In (g : geom) (candidates : list Point) (p : Point) :
  In p (App.valid_points geom distance g candidates) <->
  In p candidates /\ (distance p g * 111000 <? 3000)%float = true.
Proof. unfold App.valid_points. apply filter_In. Qed.

Variable _ic_locations : list (str * list Point).
Variable _route_geometries : list (str * geom).

(** A row all of whose surviving candidate pairs are at distance zero does
    not resolve. *)
Lemma resolve_all_zero (name_map : list (str * str)) (row : App.SectionCount) :
  (forall g s e,
      In s (App.valid_points geom distance g
                             (dict_get_or _ic_locations (App.sc_start_norm row) [])) ->
      In e (App.valid_points geom distance g
                             (dict_get_or _ic_locations (App.sc_end_norm row) [])) ->
      pair_distance haversine (s, e) = 0%float) ->
  App.resolve geom geom_bool distance haversine _ic_locations _route_geometries
              name_map row = None.
Proof.
  intros H. unfold App.resolve.
  destruct (dict_get name_map (App.sc_route_name row)) as [[|c official]|]; try reflexivity.
  destruct (dict_get _route_geometries (c :: official)) as [g|]; [|reflexivity].
  destruct (negb (geom_bool g)); [reflexivity|].
  specialize (H g).
  destruct (dict_get_or _ic_locations (App.sc_start_norm row) []) as [|s0 sc];
    [reflexivity|].
  destruct (dict_get_or _ic_locations (App.sc_end_norm row) []) as [|e0 ec];
    [reflexivity|].
  cbv zeta.
  destruct (App.valid_points geom distance g (s0 :: sc)) as [|s1 vs]; [reflexivity|].
  destruct (App.valid_points geom distance g (e0 :: ec)) as [|e1 ve]; [reflexivity|].
  apply best_pair_all_zero. exact H.
Qed.

End ResolverFacts.

(** * The name normaliser *)

Section NormalizerFacts.

(** The two applications carry the same normaliser. *)
Lemma simple_normalize_name_eq (v : pyobj) (is_route : bool) :
  AppSimple.normalize_name v is_route = App.normalize_name v is_route.
Proof. reflexivity. Qed.

Lemma fold_replace_In (l : list str) :
  forall (n : str) (c : char),
    In c (fold_left (fun n suffix => replace suffix [] n) l n) -> In c n.
Proof.
  induction l as [|s l IH]; simpl; intros n c H; [exact H|].
  apply IH in H. apply replace_In in H. simpl in H. tauto.
Qed.

Lemma fold_replace_fixed (l : list str) (y : str) :
  forallb (fun suffix => negb (contains suffix y)) l = true ->
  fold_left (fun n suffix => replace suffix [] n) l y = y.
Proof.
  induction l as [|s l IH]; simpl; [reflexivity|].
  rewrite andb_true_iff, negb_true_iff. intros [H1 H2].
  rewrite (replace_absent _ _ _ H1). exact (IH H2).
Qed.

(** After the two folding steps no full-width character and no
    ideographic space is left. *)
Lemma folding_steps_folded (name : str) :
  forallb folded (replace [ideographic_space] [space] (translate fullwidth_table name)) = true.
Proof.
  apply forallb_forall. intros c Hc. unfold folded.
  apply andb_true_iff. split.
  - apply replace_In in Hc. destruct Hc as [Hc|[<-|[]]]; [|reflexivity].
    pose proof (translate_not_fullwidth name) as H.
    rewrite forallb_forall in H. exact (H c Hc).
  - apply negb_true_iff, Z.eqb_neq. intros ->.
    revert Hc. apply replace_char_gone. simpl. unfold space, ideographic_space. lia.
Qed.

Lemma normalize_name_In (name : str) (is_route : bool) (c : char) :
  In c (App.normalize_name (PyStr name) is_route) ->
  In c (replace [ideographic_space] [space] (translate fullwidth_table name)).
Proof.
  unfold App.normalize_name, App.strip_suffixes. destruct is_route; intros H; apply strip_In in H.
  - destruct (endswith _ _); [|exact H].
    apply replace_In in H. simpl in H. tauto.
  - apply fold_replace_In in H. exact H.
Qed.

Lemma normalize_name_no_outer_space (v : pyobj) (is_route : bool) :
  no_outer_space (App.normalize_name v is_route) = true.
Proof.
  destruct v; try reflexivity.
  unfold App.normalize_name. destruct is_route; apply strip_no_outer_space.
Qed.

Lemma normalize_name_folded (v : pyobj) (is_route : bool) :
  forallb folded (App.normalize_name v is_route) = true.
Proof.
  destruct v as [|name| | |]; try reflexivity.
  apply forallb_forall. intros c Hc. apply normalize_name_In in Hc.
  pose proof (folding_steps_folded name) as H. rewrite forallb_forall in H. auto.
Qed.

(** On a folded string the two folding steps change nothing. *)
Lemma folding_steps_fixed (y : str) :
  forallb folded y = true ->
  replace [ideographic_space] [space] (translate fullwidth_table y) = y.
Proof.
  intros H. rewrite forallb_forall in H.
  rewrite translate_fixed.
  - apply replace_absent, contains_char_false. intros Hin.
    apply H in Hin. unfold folded in Hin. rewrite Z.eqb_refl, andb_false_r in Hin.
    discriminate.
  - apply forallb_forall. intros c Hc. apply H in Hc. unfold folded in Hc.
    apply andb_true_iff in Hc. tauto.
Qed.

(** A settled, folded and trimmed string is a fixed point. *)
Lemma normalize_name_fixed (y : str) (is_route : bool) :
  no_outer_space y = true -> forallb folded y = true -> settled is_route y = true ->
  App.normalize_name (PyStr y) is_route = y.
Proof.
  intros Hs Hf Hy. unfold App.normalize_name, App.strip_suffixes.
  rewrite (folding_steps_fixed y Hf). unfold settled in Hy. destruct is_route.
  - apply negb_true_iff in Hy. rewrite Hy. apply strip_fixed, Hs.
  - rewrite (fold_replace_fixed _ _ Hy). apply strip_fixed, Hs.
Qed.

(** *** What a second pass still strips *)

Lemma replace_from_length (old : str) (s : str) :
  forall k, (List.length (replace_from old [] k s) <= List.length s)%nat.
Proof.
  induction s as [|c s IH]; intros k; simpl; [lia|].
  destruct k as [|k]; [destruct (startswith old (c :: s))|]; simpl;
    match goal with |- context [replace_from old [] ?j s] => specialize (IH j) end; lia.
Qed.

Lemma replace_length (old s : str) :
  (List.length (replace old [] s) <= List.length s)%nat.
Proof.
  destruct old as [|o old]; simpl.
  - induction s as [|c s IH]; simpl; lia.
  - apply replace_from_length.
Qed.

Lemma replace_present_shorter (o : char) (old s : str) :
  contains (o :: old) s = true ->
  (List.length (replace (o :: old) [] s) < List.length s)%nat.
Proof.
  unfold replace. induction s as [|c s IH]; [discriminate|].
  intros H. change (contains (o :: old) (c :: s))
    with (startswith (o :: old) (c :: s) || contains (o :: old) s) in H.
  cbn [replace_from]. destruct (startswith (o :: old) (c :: s)) eqn:E.
  - pose proof (replace_from_length (o :: old) s (pred (List.length (o :: old)))).
    simpl in *. lia.
  - simpl in H. specialize (IH H). simpl. lia.
Qed.

Lemma fold_replace_length (l : list str) :
  forall n, (List.length (fold_left (fun n suffix => replace suffix [] n) l n)
             <= List.length n)%nat.
Proof.
  induction l as [|s l IH]; intros n; simpl; [lia|].
  specialize (IH (replace s [] n)). pose proof (replace_length s n). lia.
Qed.

Lemma fold_replace_shorter (l : list str) :
  forallb (fun s => match s with [] => false | _ :: _ => true end) l = true ->
  forall n, forallb (fun suffix => negb (contains suffix n)) l = false ->
            (List.length (fold_left (fun n suffix => replace suffix [] n) l n)
             < List.length n)%nat.
Proof.
  induction l as [|s l IH]; simpl; [discriminate|].
  rewrite andb_true_iff. intros [Hs Hl] n H.
  destruct (contains s n) eqn:E.
  - destruct s as [|o s]; [discriminate|].
    pose proof (replace_present_shorter o s n E).
    pose proof (fold_replace_length l (replace (o :: s) [] n)). lia.
  - rewrite (replace_absent _ _ _ E). simpl in H. auto.
Qed.

Lemma lstrip_length (s : str) : (List.length (lstrip s) <= List.length s)%nat.
Proof.
  induction s as [|c s IH]; simpl; [lia|]. destruct (isspace c); simpl; lia.
Qed.

Lemma strip_length (s : str) : (List.length (strip s) <= List.length s)%nat.
Proof.
  unfold strip, rstrip. rewrite length_rev.
  pose proof (lstrip_length (rev (lstrip s))) as H. rewrite length_rev in H.
  pose proof (lstrip_length s). lia.
Qed.

Lemma endswith_char_In (a : char) (s : str) : endswith [a] s = true -> In a s.
Proof.
  unfold endswith. simpl. intros H. apply in_rev.
  destruct (rev s) as [|c r]; [discriminate|].
  apply andb_true_iff in H. destruct H as [H _]. apply char_eqb_eq in H.
  subst. left. reflexivity.
Qed.

(** A folded string that is not settled is changed by another pass. *)
Lemma normalize_name_moves (y : str) (is_route : bool) :
  forallb folded y = true -> settled is_route y = false ->
  App.normalize_name (PyStr y) is_route <> y.
Proof.
  intros Hf Hy. unfold App.normalize_name, App.strip_suffixes.
  rewrite (folding_steps_fixed y Hf). unfold settled in Hy. destruct is_route.
  - apply negb_false_iff in Hy. rewrite Hy. intros E.
    apply endswith_char_In in Hy. rewrite <- E in Hy.
    apply strip_In in Hy. revert Hy. apply replace_char_gone. simpl. tauto.
  - intros E.
    pose proof (fold_replace_shorter App.suffixes eq_refl y Hy) as H1.
    pose proof (strip_length
                  (fold_left (fun n suffix => replace suffix [] n) App.suffixes y)) as H2.
    rewrite E in H2. lia.
Qed.

End NormalizerFacts.

(** ** Statements about [normalize_name] *)

(** In ROUTE mode a name that ends with the road character loses every
    occurrence of it, not only the last one. *)
Lemma route_mode_leaves_no_road_char (name : str) :
  endswith [road_char]
           (replace [ideographic_space] [space] (translate fullwidth_table name)) = true ->
  ~ In road_char (App.normalize_name (PyStr name) true).
Proof.
  intros H Hin. unfold App.normalize_name in Hin. rewrite H in Hin.
  apply strip_In in Hin. revert Hin. apply replace_char_gone. simpl. tauto.
Qed.

(** C1: the input "道央道" ends with the road character '道'; ROUTE-mode
    normalisation returns "央", so the leading '道' is removed together with
    the trailing one (stripping exactly the trailing character would give
    "道央"). *)
Theorem normalize_name_route_strips_every_road_char :
  endswith [road_char] [0x9053; 0x592E; 0x9053] = true /\
  App.normalize_name (PyStr [0x9053; 0x592E; 0x9053]) true = [0x592E] /\
  AppSimple.normalize_name (PyStr [0x9053; 0x592E; 0x9053]) true = [0x592E] /\
  App.normalize_name (PyStr [0x9053; 0x592E; 0x9053]) true <> [0x9053; 0x592E].
Proof.
  repeat split; try reflexivity. vm_compute. discriminate.
Qed.

(** C3, as stated, fails in both modes: "東北道 " (with a trailing space)
    normalises in ROUTE mode to "東北道" and that to "東北"; "IICC"
    normalises in PLACE mode to "IC" and that to the empty string. *)
Lemma normalize_name_twice_differs :
  App.normalize_name
    (PyStr (App.normalize_name (PyStr [0x6771; 0x5317; 0x9053; 0x20]) true)) true
  <> App.normalize_name (PyStr [0x6771; 0x5317; 0x9053; 0x20]) true
  /\
  App.normalize_name (PyStr (App.normalize_name (PyStr (lit "IICC")) false)) false
  <> App.normalize_name (PyStr (lit "IICC")) false.
Proof.
  split; vm_compute; discriminate.
Qed.

(** C3, amended: a second normalisation in the same mode returns the first
    result exactly when that result is settled, that is, in ROUTE mode it does
    not end with '道' and in PLACE mode it contains none of the designators
    IC, JCT, SIC, SA, PA, TB; the same holds for the normaliser of
    [roadkill_app_simple.py]. *)
Theorem normalize_name_idempotent_iff_settled (v : pyobj) (is_route : bool) :
  (App.normalize_name (PyStr (App.normalize_name v is_route)) is_route
   = App.normalize_name v is_route
   <-> settled is_route (App.normalize_name v is_route) = true)
  /\
  (AppSimple.normalize_name (PyStr (AppSimple.normalize_name v is_route)) is_route
   = AppSimple.normalize_name v is_route
   <-> settled is_route (AppSimple.normalize_name v is_route) = true).
Proof.
  assert (H : (App.normalize_name (PyStr (App.normalize_name v is_route)) is_route
               = App.normalize_name v is_route)
              <-> (settled is_route (App.normalize_name v is_route) = true)).
  { split.
    - intros E. destruct (settled is_route (App.normalize_name v is_route)) eqn:S;
        [reflexivity|]. exfalso. revert E.
      apply normalize_name_moves; [apply normalize_name_folded | exact S].
    - apply normalize_name_fixed;
        [apply normalize_name_no_outer_space | apply normalize_name_folded]. }
  split; exact H.
Qed.

Lemma normalize_name_idempotent_iff_settled_witness :
  App.normalize_name (PyStr (App.normalize_name (PyStr (lit " Mito IC")) false)) false
  = App.normalize_name (PyStr (lit " Mito IC")) false
  /\
  App.normalize_name
    (PyStr (App.normalize_name (PyStr [0x6771; 0x5317; 0x9053]) true)) true
  = App.normalize_name (PyStr [0x6771; 0x5317; 0x9053]) true.
Proof.
  split.
  - apply (proj1 (normalize_name_idempotent_iff_settled (PyStr (lit " Mito IC")) false)).
    vm_compute. reflexivity.
  - apply (proj1 (normalize_name_idempotent_iff_settled
                    (PyStr [0x6771; 0x5317; 0x9053]) true)).
    vm_compute. reflexivity.
Defined.

(** C9: [normalize_name] is a total function into strings, and on every
    value that is not a string ([None], [nan], numbers, booleans) it returns
    the empty string, in either mode and in all three programs. *)
Theorem normalize_name_non_string (v : pyobj) (is_route : bool) :
  isinstance_str v = false ->
  App.normalize_name v is_route = [] /\
  AppSimple.normalize_name v is_route = [] /\
  RoadkillMap.normalize_name v = [].
Proof.
  destruct v; simpl; intros H; try discriminate; repeat split; reflexivity.
Qed.

Lemma normalize_name_non_string_witness :
  (App.normalize_name PyNone true = [] /\
   AppSimple.normalize_name PyNone true = [] /\
   RoadkillMap.normalize_name PyNone = [])
  /\
  (App.normalize_name (PyFloat nan) false = [] /\
   AppSimple.normalize_name (PyFloat nan) false = [] /\
   RoadkillMap.normalize_name (PyFloat nan) = []).
Proof.
  split.
  - apply (normalize_name_non_string PyNone true). reflexivity.
  - apply (normalize_name_non_string (PyFloat nan) false). reflexivity.
Defined.

(** C10: whatever the input and the mode, the result of [normalize_name]
    neither starts nor ends with white space and contains no code point of
    the full-width block U+FF01..U+FF5E and no ideographic space U+3000. *)
Theorem normalize_name_output_clean (v : pyobj) (is_route : bool) :
  no_outer_space (App.normalize_name v is_route) = true /\
  forallb folded (App.normalize_name v is_route) = true /\
  no_outer_space (AppSimple.normalize_name v is_route) = true /\
  forallb folded (AppSimple.normalize_name v is_route) = true.
Proof.
  repeat split;
    first [apply normalize_name_no_outer_space | apply normalize_name_folded].
Qed.

(** ** Statements about the resolver of [app.py] and [roadkill_app_simple.py] *)

(** C4: the pair chosen by the nearest-pair loop always has a great-circle
    distance above zero, so a pair of identical coordinates (distance zero) is
    never chosen; when every pair of the cross product of the surviving start
    and end candidates has distance zero the loop chooses nothing, the section
    does not resolve and no map row is produced for it.  The loop of
    [roadkill_app_simple.py] has the same text. *)
Theorem zero_distance_pair_never_selected
        (geom : Type) (geom_bool : geom -> bool)
        (distance : Shapely.Point -> geom -> float)
        (haversine : float * float -> float * float -> float)
        (_ic_locations : list (str * list Shapely.Point))
        (_route_geometries : list (str * geom))
        (starts ends : list Shapely.Point)
        (name_map : list (str * str)) (row : App.SectionCount) :
  (forall s e,
      App.best_pair haversine starts ends = Some (s, e) ->
      (0 <? pair_distance haversine (s, e))%float = true /\
      pair_distance haversine (s, e) <> 0%float /\
      (haversine (Shapely.y s, Shapely.x s) (Shapely.y s, Shapely.x s) = 0%float ->
       (Shapely.y e, Shapely.x e) <> (Shapely.y s, Shapely.x s)))
  /\
  ((forall s e, In s starts -> In e ends -> pair_distance haversine (s, e) = 0%float) ->
   App.best_pair haversine starts ends = None)
  /\
  ((forall g s e,
       In s (App.valid_points geom distance g
                              (dict_get_or _ic_locations (App.sc_start_norm row) [])) ->
       In e (App.valid_points geom distance g
                              (dict_get_or _ic_locations (App.sc_end_norm row) [])) ->
       pair_distance haversine (s, e) = 0%float) ->
   App.resolve geom geom_bool distance haversine _ic_locations _route_geometries
               name_map row = None /\
   App.get_map_data geom geom_bool distance haversine _ic_locations _route_geometries
                    [row] = []).
Proof.
  split; [|split].
  - intros s e H. apply best_pair_positive in H. destruct H as [_ H].
    assert (Hz : pair_distance haversine (s, e) <> 0%float).
    { intros E. rewrite E in H. vm_compute in H. discriminate. }
    repeat split; auto.
    intros Hs E. apply Hz. unfold pair_distance. simpl. rewrite E. exact Hs.
  - apply best_pair_all_zero.
  - intros H. split; [apply resolve_all_zero, H|].
    unfold App.get_map_data. cbn [flat_map List.map].
    rewrite (resolve_all_zero _ _ _ _ _ _ _ _ H). reflexivity.
Qed.

Lemma zero_distance_pair_never_selected_witness :
  (0 <? pair_distance meridian_gap (ic_south, ic_mid))%float = true /\
  App.best_pair meridian_gap [ic_south] [ic_south] = None /\
  App.resolve unit (fun _ => true) on_route meridian_gap [(mito, [ic_south])]
              [(lit "Joban", tt)] [(lit "Joban", lit "Joban")] (sample_row mito mito)
  = None.
Proof.
  pose proof (zero_distance_pair_never_selected
                unit (fun _ => true) on_route meridian_gap [(mito, [ic_south])]
                [(lit "Joban", tt)]) as T.
  split; [|split].
  - apply (proj1 (T [ic_south] [ic_mid] [(lit "Joban", lit "Joban")] (sample_row mito mito))
                 ic_south ic_mid).
    vm_compute. reflexivity.
  - apply (proj1 (proj2 (T [ic_south] [ic_south] [(lit "Joban", lit "Joban")]
                           (sample_row mito mito)))).
    intros s e [<-|[]] [<-|[]]. vm_compute. reflexivity.
  - apply (proj2 (proj2 (T [ic_south] [ic_south] [(lit "Joban", lit "Joban")]
                           (sample_row mito mito)))).
    intros g s e [<-|[]] [<-|[]]. vm_compute. reflexivity.
Defined.

(** C5: a candidate stays in the filtered list exactly when its distance to
    the route geometry, in degrees times 111000, is strictly below 3000; a
    candidate at 3000 or more, and in particular at exactly 3000, is
    excluded. *)
Theorem plausibility_threshold_strict
        (geom : Type) (distance : Shapely.Point -> geom -> float)
        (g : geom) (candidates : list Shapely.Point) (p : Shapely.Point) :
  (In p (App.valid_points geom distance g candidates) <->
   In p candidates /\ (distance p g * 111000 <? 3000)%float = true)
  /\
  ((App.DISTANCE_THRESHOLD_M <=? distance p g * 111000)%float = true ->
   ~ In p (App.valid_points geom distance g candidates))
  /\
  ((distance p g * 111000)%float = App.DISTANCE_THRESHOLD_M ->
   ~ In p (App.valid_points geom distance g candidates)).
Proof.
  split; [exact (valid_points_In geom distance g candidates p)|]. split.
  - intros H Hin. apply valid_points_In in Hin. destruct Hin as [_ Hin].
    apply float_le_not_gt in H. unfold App.DISTANCE_THRESHOLD_M in H. congruence.
  - intros H Hin. apply valid_points_In in Hin. destruct Hin as [_ Hin].
    rewrite H in Hin. vm_compute in Hin. discriminate.
Qed.

Lemma plausibility_threshold_strict_witness :
  (on_threshold ic_south tt * 111000)%float = 3000%float /\
  ~ In ic_south (App.valid_points unit on_threshold tt [ic_south]).
Proof.
  split; [vm_compute; reflexivity|].
  apply (proj2 (proj2 (plausibility_threshold_strict unit on_threshold tt
                                                     [ic_south] ic_south))).
  vm_compute. reflexivity.
Defined.

(** C8: when the cross product is [l1 ++ p :: l2], [p] has a finite distance
    above zero, no pair has a smaller distance above zero, and no pair before
    [p] has the distance of [p], then the loop selects [p]: among the pairs
    that share the smallest positive distance the first in iteration order
    wins.  The loop is a function of its input, so two runs agree. *)
Theorem tie_break_first_in_order
        (haversine : float * float -> float * float -> float)
        (starts ends : list Shapely.Point)
        (l1 l2 : list (Shapely.Point * Shapely.Point))
        (p : Shapely.Point * Shapely.Point) :
  list_prod starts ends = l1 ++ p :: l2 ->
  (0 <? pair_distance haversine p)%float = true ->
  (pair_distance haversine p <? infinity)%float = true ->
  (forall q, In q (l1 ++ l2) ->
             (0 <? pair_distance haversine q)%float = true ->
             (pair_distance haversine q <? pair_distance haversine p)%float = false) ->
  (forall q, In q l1 ->
             (pair_distance haversine q =? pair_distance haversine p)%float = false) ->
  App.best_pair haversine starts ends = Some p.
Proof.
  intros Hl Hpos Hfin Hmin Hfirst.
  unfold App.best_pair, App.best_pair_loop. rewrite Hl, fold_left_app.
  cbn [fold_left].
  destruct (fold_left (App.best_pair_step haversine) l1 (infinity, None)) as [m b] eqn:E.
  assert (Hm : (pair_distance haversine p <? m)%float = true).
  { apply best_pair_loop_inv in E. destruct E as [[-> _]|[q [Hq [_ [-> Hq0]]]]].
    - exact Hfin.
    - apply float_lt_total; auto.
      apply Hmin; [apply in_or_app; left; exact Hq | exact Hq0]. }
  rewrite best_pair_step_eq, Hpos, Hm. cbn [andb].
  rewrite best_pair_loop_keeps; [reflexivity|].
  intros q Hq. destruct (0 <? pair_distance haversine q)%float eqn:Eq; [|reflexivity].
  cbn [andb]. apply Hmin; [apply in_or_app; right; exact Hq | exact Eq].
Qed.

Lemma tie_break_first_in_order_witness :
  pair_distance meridian_gap (ic_south, ic_mid) = pair_distance meridian_gap (ic_north, ic_mid)
  /\ App.best_pair meridian_gap [ic_south; ic_north] [ic_mid] = Some (ic_south, ic_mid).
Proof.
  split; [vm_compute; reflexivity|].
  apply (tie_break_first_in_order meridian_gap [ic_south; ic_north] [ic_mid]
                                  [] [(ic_north, ic_mid)] (ic_south, ic_mid)).
  - reflexivity.
  - vm_compute. reflexivity.
  - vm_compute. reflexivity.
  - intros q [<-|[]] _. vm_compute. reflexivity.
  - intros q [].
Defined.

(** ** Density *)

(** C7: the density of a segment is its count divided by its length when the
    length is above zero, and zero when the length is zero, negative or
    missing (NaN); both programs compute it by a total function, so no
    division by zero or other error can arise. *)
Theorem count_per_km_floor (count : Z) (length_km : float) :
  ((0 <? length_km)%float = true ->
   App.count_per_km count length_km = (float_of_count count / length_km)%float /\
   RoadkillMap.count_per_km count length_km = (float_of_count count / length_km)%float)
  /\
  ((length_km <=? 0)%float = true \/ is_nan length_km = true ->
   App.count_per_km count length_km = 0%float /\
   RoadkillMap.count_per_km count length_km = 0%float).
Proof.
  unfold App.count_per_km, RoadkillMap.count_per_km. split.
  - intros H. rewrite H. destruct (is_nan length_km) eqn:E; [|auto].
    rewrite (float_nan_not_gt _ _ E) in H. discriminate.
  - intros [H|H].
    + rewrite (float_le_not_gt _ _ H), andb_false_r. auto.
    + rewrite (float_nan_not_gt _ _ H), andb_false_r. auto.
Qed.

Lemma count_per_km_floor_witness :
  (App.count_per_km 5 2.5 = 2%float /\ RoadkillMap.count_per_km 5 2.5 = 2%float)
  /\ (App.count_per_km 5 0 = 0%float /\ RoadkillMap.count_per_km 5 0 = 0%float)
  /\ (App.count_per_km 5 (-3) = 0%float /\ RoadkillMap.count_per_km 5 (-3) = 0%float)
  /\ (App.count_per_km 5 nan = 0%float /\ RoadkillMap.count_per_km 5 nan = 0%float).
Proof.
  split; [|split; [|split]].
  - apply (proj1 (count_per_km_floor 5 2.5)). vm_compute. reflexivity.
  - apply (proj2 (count_per_km_floor 5 0)). left. vm_compute. reflexivity.
  - apply (proj2 (count_per_km_floor 5 (-3))). left. vm_compute. reflexivity.
  - apply (proj2 (count_per_km_floor 5 nan)). right. vm_compute. reflexivity.
Defined.

(** * Grouping *)

Section CompareFacts.

Lemma str_compare_eq (a b : str) : str_compare a b = Eq <-> a = b.
Proof.
  revert b; induction a as [|x a IH]; intros [|y b]; simpl;
    try (split; discriminate); try tauto.
  destruct (Z.compare_spec x y) as [E|E|E].
  - subst. rewrite IH. split; [intros ->; reflexivity | intros H; inversion H; auto].
  - split; [discriminate | intros H; inversion H; lia].
  - split; [discriminate | intros H; inversion H; lia].
Qed.

Lemma str_compare_antisym (a b : str) : str_compare b a = CompOpp (str_compare a b).
Proof.
  revert b; induction a as [|x a IH]; intros [|y b]; simpl; try reflexivity.
  rewrite (Z.compare_antisym x y). destruct (x ?= y); simpl; auto.
Qed.

Lemma str_compare_trans (a b c : str) :
  str_compare a b = Lt -> str_compare b c = Lt -> str_compare a c = Lt.
Proof.
  revert b c; induction a as [|x a IH]; intros [|y b] [|z c]; simpl;
    try discriminate; try reflexivity.
  destruct (Z.compare_spec x y) as [E1|E1|E1]; try discriminate;
    destruct (Z.compare_spec y z) as [E2|E2|E2]; try discriminate; intros H1 H2.
  - subst. rewrite Z.compare_refl. eauto.
  - subst. apply Z.compare_lt_iff in E2. rewrite E2. reflexivity.
  - subst. apply Z.compare_lt_iff in E1. rewrite E1. reflexivity.
  - assert (E : x < z) by lia. apply Z.compare_lt_iff in E. rewrite E. reflexivity.
Qed.

Lemma pair_compare_eq (a b : str * str) : pair_compare a b = Eq <-> a = b.
Proof.
  destruct a as [a1 a2], b as [b1 b2]. unfold pair_compare. simpl.
  destruct (str_compare a1 b1) eqn:E.
  - apply str_compare_eq in E. subst. rewrite str_compare_eq.
    split; [intros ->; reflexivity | intros H; inversion H; auto].
  - split; [discriminate|]. intros H. inversion H; subst.
    rewrite (proj2 (str_compare_eq b1 b1) eq_refl) in E. discriminate.
  - split; [discriminate|]. intros H. inversion H; subst.
    rewrite (proj2 (str_compare_eq b1 b1) eq_refl) in E. discriminate.
Qed.

Lemma pair_compare_antisym (a b : str * str) :
  pair_compare b a = CompOpp (pair_compare a b).
Proof.
  unfold pair_compare. rewrite (str_compare_antisym (fst a) (fst b)).
  destruct (str_compare (fst a) (fst b)); simpl; auto using str_compare_antisym.
Qed.

Lemma pair_compare_trans (a b c : str * str) :
  pair_compare a b = Lt -> pair_compare b c = Lt -> pair_compare a c = Lt.
Proof.
  unfold pair_compare.
  destruct (str_compare (fst a) (fst b)) eqn:E1; try discriminate;
    destruct (str_compare (fst b) (fst c)) eqn:E2; try discriminate; intros H1 H2.
  - apply str_compare_eq in E1, E2. rewrite E1, E2.
    rewrite (proj2 (str_compare_eq (fst c) (fst c)) eq_refl).
    eapply str_compare_trans; eauto.
  - apply str_compare_eq in E1. rewrite E1, E2. reflexivity.
  - apply str_compare_eq in E2. rewrite <- E2, E1. reflexivity.
  - rewrite (str_compare_trans _ _ _ E1 E2). reflexivity.
Qed.

End CompareFacts.

Section GroupByFacts.

Variables K R A : Type.
Variable key : R -> K.
Variable cmp : K -> K -> comparison.
Variable init : R -> A.
Variable step : A -> R -> A.

Hypothesis cmp_eq : forall a b, cmp a b = Eq <-> a = b.
Hypothesis cmp_antisym : forall a b, cmp b a = CompOpp (cmp a b).
Hypothesis cmp_trans : forall a b c, cmp a b = Lt -> cmp b c = Lt -> cmp a c = Lt.

Lemma group_insert_fst (r : R) (gs : list (K * A)) (g : K * A) :
  In g (group_insert key cmp init step r gs) ->
  fst g = key r \/ exists g', In g' gs /\ fst g' = fst g.
Proof.
  induction gs as [|[k a] gs IH]; simpl.
  - intros [<-|[]]. left. reflexivity.
  - destruct (cmp (key r) k) eqn:E; simpl.
    + intros [<-|H]; right; [exists (k, a) | exists g]; simpl; auto.
    + intros [<-|[<-|H]]; [left; reflexivity | right; exists (k, a) | right; exists g];
        simpl; auto.
    + intros [<-|H]; [right; exists (k, a); simpl; auto|].
      apply IH in H. destruct H as [H|[g' [H1 H2]]]; [left; exact H|].
      right. exists g'. auto.
Qed.

Lemma group_insert_sorted (r : R) (gs : list (K * A)) :
  StronglySorted (key_lt cmp) gs ->
  StronglySorted (key_lt cmp) (group_insert key cmp init step r gs).
Proof.
  induction 1 as [|[k a] gs Hs IH Hf]; simpl.
  - constructor; constructor.
  - destruct (cmp (key r) k) eqn:E.
    + constructor; [exact Hs | exact Hf].
    + constructor; [constructor; assumption|].
      constructor; [exact E|].
      eapply Forall_impl; [|exact Hf]. intros h Hh. unfold key_lt in *. simpl in *.
      eapply cmp_trans; eauto.
    + constructor; [exact IH|]. apply Forall_forall. intros g Hg.
      apply group_insert_fst in Hg. unfold key_lt. simpl.
      destruct Hg as [Hg|[g' [H1 H2]]].
      * rewrite Hg, cmp_antisym, E. reflexivity.
      * rewrite <- H2. rewrite Forall_forall in Hf. apply (Hf g' H1).
Qed.

Lemma fold_insert_sorted (rs : list R) :
  forall gs, StronglySorted (key_lt cmp) gs ->
             StronglySorted (key_lt cmp)
                            (fold_left (fun gs r => group_insert key cmp init step r gs) rs gs).
Proof.
  induction rs as [|r rs IH]; simpl; intros gs H; [exact H|].
  apply IH, group_insert_sorted, H.
Qed.

Lemma groupby_sorted (rs : list R) :
  StronglySorted (key_lt cmp) (groupby key cmp init step rs).
Proof. apply fold_insert_sorted. constructor. Qed.

Lemma group_get_cons (k k0 : K) (a0 : A) (gs : list (K * A)) :
  group_get cmp k ((k0, a0) :: gs)
  = match cmp k k0 with Eq => Some a0 | _ => group_get cmp k gs end.
Proof. unfold group_get. simpl. destruct (cmp k k0); reflexivity. Qed.

Lemma group_get_above (k : K) (gs : list (K * A)) :
  Forall (fun h => cmp k (fst h) = Lt) gs -> group_get cmp k gs = None.
Proof.
  induction 1 as [|[k0 a0] gs H Hf IH]; [reflexivity|].
  rewrite group_get_cons. simpl in H. rewrite H. exact IH.
Qed.

Lemma cmp_refl (k : K) : cmp k k = Eq.
Proof. apply cmp_eq. reflexivity. Qed.

(** The groups after one more record. *)
Lemma group_get_insert (r : R) (k : K) (gs : list (K * A)) :
  StronglySorted (key_lt cmp) gs ->
  group_get cmp k (group_insert key cmp init step r gs)
  = match cmp k (key r) with
    | Eq => Some (match group_get cmp (key r) gs with
                  | Some a => step a r
                  | None => init r
                  end)
    | _ => group_get cmp k gs
    end.
Proof.
  induction 1 as [|[k0 a0] gs Hs IH Hf]; cbn [group_insert].
  - rewrite group_get_cons. destruct (cmp k (key r)); reflexivity.
  - destruct (cmp (key r) k0) eqn:E.
    + pose proof (proj1 (cmp_eq _ _) E) as Ek. rewrite !group_get_cons, E, Ek.
      destruct (cmp k k0); reflexivity.
    + rewrite (group_get_cons k (key r)), (group_get_cons (key r) k0), E.
      rewrite (group_get_above (key r) gs); [destruct (cmp k (key r)); reflexivity|].
      eapply Forall_impl; [|exact Hf]. intros h Hh. unfold key_lt in Hh. simpl in Hh.
      eapply cmp_trans; eauto.
    + rewrite (group_get_cons k k0), (group_get_cons (key r) k0), E, IH.
      destruct (cmp k (key r)) eqn:Ek.
      * apply cmp_eq in Ek. subst k. rewrite E. reflexivity.
      * rewrite group_get_cons. reflexivity.
      * rewrite group_get_cons. reflexivity.
Qed.

(** Rows in strictly increasing key order: at most one row per key, also
    after the rows are rebuilt by [mk]. *)
Lemma sorted_filter_key (B : Type) (mk : K * A -> B) (keyof : B -> K)
      (eqb : K -> K -> bool) (k : K) (gs : list (K * A)) :
  (forall g, keyof (mk g) = fst g) ->
  (forall a b, eqb a b = true <-> a = b) ->
  StronglySorted (key_lt cmp) gs ->
  filter (fun b => eqb k (keyof b)) (List.map mk gs)
  = match find (fun b => eqb k (keyof b)) (List.map mk gs) with
    | Some b => [b]
    | None => []
    end.
Proof.
  intros Hk Heqb. induction 1 as [|g gs Hs IH Hf]; simpl; [reflexivity|].
  destruct (eqb k (keyof (mk g))) eqn:E; [|exact IH].
  apply Heqb in E. rewrite Hk in E. f_equal.
  clear IH Hs. induction Hf as [|h gs Hh Hf IH]; simpl; [reflexivity|].
  destruct (eqb k (keyof (mk h))) eqn:E'; [|exact IH].
  apply Heqb in E'. rewrite Hk in E'. unfold key_lt in Hh.
  rewrite <- E, <- E', cmp_refl in Hh. discriminate.
Qed.

Variable cnt : A -> Z.
Hypothesis cnt_init : forall r, cnt (init r) = 1.
Hypothesis cnt_step : forall a r, cnt (step a r) = cnt a + 1.

Lemma fold_insert_count (k : K) (rs : list R) :
  forall gs,
    StronglySorted (key_lt cmp) gs ->
    match group_get cmp k (fold_left (fun gs r => group_insert key cmp init step r gs) rs gs)
    with Some a => cnt a | None => 0 end
    = match group_get cmp k gs with Some a => cnt a | None => 0 end
      + key_count key cmp k rs.
Proof.
  unfold key_count. induction rs as [|r rs IH]; intros gs Hs; cbn [fold_left filter].
  - simpl. lia.
  - rewrite (IH _ (group_insert_sorted r gs Hs)), (group_get_insert r k gs Hs).
    destruct (cmp k (key r)) eqn:E; cbn [List.length]; try lia.
    apply cmp_eq in E. subst k.
    destruct (group_get cmp (key r) gs); rewrite ?cnt_init, ?cnt_step; lia.
Qed.

(** The size of a group is the number of records with its key. *)
Lemma groupby_count (k : K) (rs : list R) :
  match group_get cmp k (groupby key cmp init step rs) with Some a => cnt a | None => 0 end
  = key_count key cmp k rs.
Proof.
  unfold groupby. rewrite fold_insert_count; [reflexivity | constructor].
Qed.

End GroupByFacts.

(** * The pre-cut variant *)

Section PrecutFacts.

Import RoadkillMap.

Variable geom : Type.

Lemma str_compare_eqb (a b : str) :
  str_eqb a b = match str_compare a b with Eq => true | _ => false end.
Proof.
  destruct (str_compare a b) eqn:E.
  - apply str_compare_eq in E. subst. apply str_eqb_refl.
  - destruct (str_eqb a b) eqn:E'; [|reflexivity].
    apply str_eqb_eq in E'. apply str_compare_eq in E'. congruence.
  - destruct (str_eqb a b) eqn:E'; [|reflexivity].
    apply str_eqb_eq in E'. apply str_compare_eq in E'. congruence.
Qed.

(** The grouped table has at most one row per normalised section key. *)
Lemma section_counts_filter (filtered_df : list IncidentRecord) (k : str) :
  filter (fun r => str_eqb k (section_norm r)) (section_counts filtered_df)
  = match lookup_section (section_counts filtered_df) k with
    | Some r => [r]
    | None => []
    end.
Proof.
  unfold lookup_section, section_counts. destruct filtered_df as [|r0 df]; [reflexivity|].
  apply (sorted_filter_key str (Z * float * str) str_compare str_compare_eq
                           SectionCount _ section_norm str_eqb k).
  - intros g. reflexivity.
  - apply str_eqb_eq.
  - apply groupby_sorted.
    + apply str_compare_antisym.
    + apply str_compare_trans.
Qed.

Lemma merge_left_cons (s : Section_ geom) (l : list (Section_ geom))
      (left_on : Section_ geom -> str) (filtered_df : list IncidentRecord) :
  merge_left geom (s :: l) left_on (section_counts filtered_df)
  = (s, lookup_section (section_counts filtered_df) (left_on s))
      :: merge_left geom l left_on (section_counts filtered_df).
Proof.
  unfold merge_left. cbn [flat_map]. rewrite section_counts_filter.
  destruct (lookup_section (section_counts filtered_df) (left_on s)); reflexivity.
Qed.

Lemma assign_attributed (filtered_df : list IncidentRecord) (sections : list (Section_ geom)) :
  let sc := section_counts filtered_df in
  let map_gdf_1 := merge_left geom sections (section_norm_key_1 geom) sc in
  let map_gdf_2 := merge_left geom sections (section_norm_key_2 geom) sc in
  assign geom map_gdf_1
         (List.map (fun c => match c with Some n => n | None => 0 end)
              (fillna_series fillna_opt (List.map (col_count geom) map_gdf_1)
                             (List.map (col_count geom) map_gdf_2)))
         (fillna_series fillna (List.map (col_length geom) map_gdf_1)
                        (List.map (col_length geom) map_gdf_2))
         (fillna_series fillna_opt (List.map (col_route_name geom) map_gdf_1)
                        (List.map (col_route_name geom) map_gdf_2))
  = List.map (attributed (section_counts filtered_df)) sections.
Proof.
  cbv zeta. induction sections as [|s l IH]; [reflexivity|].
  rewrite !merge_left_cons. cbn [List.map fillna_series assign]. rewrite IH.
  f_equal. unfold attributed, col_count, col_length, col_route_name. cbn [fst snd].
  destruct (lookup_section (section_counts filtered_df) (section_norm_key_1 geom s)),
           (lookup_section (section_counts filtered_df) (section_norm_key_2 geom s));
    reflexivity.
Qed.

Lemma filter_attributed (sc : list SectionCount) (sections : list (Section_ geom)) :
  filter (fun row => match geometry (mg_section row) with
                     | Some _ => true
                     | None => false
                     end)
         (List.map (attributed sc) sections)
  = List.map (attributed sc) (filter has_geometry sections).
Proof.
  induction sections as [|s l IH]; [reflexivity|].
  cbn [List.map filter]. unfold has_geometry at 1. cbn [attributed mg_section].
  destruct (geometry s); cbn [List.map]; rewrite IH; reflexivity.
Qed.

(** The count of a row is the number of incidents with its normalised
    section label. *)
Lemma lookup_section_count (filtered_df : list IncidentRecord) (k : str) :
  match lookup_section (section_counts filtered_df) k with
  | Some r => sc_count r
  | None => 0
  end
  = key_count section_norm_of str_compare k filtered_df.
Proof.
  destruct filtered_df as [|r0 df]; [reflexivity|].
  rewrite <- (groupby_count str IncidentRecord (Z * float * str) section_norm_of
                            str_compare
                            (fun r => (1, csv_length r, csv_route_name r))
                            (fun a r => (fst (fst a) + 1,
                                         fillna (snd (fst a)) (csv_length r), snd a))
                            str_compare_eq str_compare_antisym str_compare_trans
                            (fun a => fst (fst a)));
    [|reflexivity|reflexivity].
  unfold lookup_section, section_counts.
  generalize (groupby section_norm_of str_compare
                      (fun r => (1, csv_length r, csv_route_name r))
                      (fun a r => (fst (fst a) + 1,
                                   fillna (snd (fst a)) (csv_length r), snd a))
                      (r0 :: df)).
  intros gs. unfold group_get. induction gs as [|g gs IH]; [reflexivity|].
  cbn [List.map find section_norm]. rewrite str_compare_eqb.
  destruct (str_compare k (fst g)); auto.
Qed.

End PrecutFacts.



(** * Resolution and aggregation in [app.py] *)

Section AggregationFacts.

Import Shapely.

Variable geom : Type.
Variable geom_bool : geom -> bool.
Variable distance : Point -> geom -> float.
Variable haversine : float * float -> float * float -> float.
Variable _ic_locations : list (str * list Point).
Variable _route_geometries : list (str * geom).

Lemma unique_from_In (l : list str) :
  forall seen a, In a (unique_from seen l) <-> In a l /\ ~ In a seen.
Proof.
  induction l as [|b l IH]; intros seen a; simpl; [tauto|].
  destruct (existsb (str_eqb b) seen) eqn:E.
  - rewrite IH. apply existsb_exists in E. destruct E as [c [Hc E]].
    apply str_eqb_eq in E. subst c. split; [tauto|].
    intros [[<-|H] Hn]; tauto.
  - assert (Hb : ~ In b seen).
    { intros H. assert (existsb (str_eqb b) seen = true)
        by (apply existsb_exists; exists b; split; [exact H | apply str_eqb_refl]).
      congruence. }
    simpl. rewrite IH. simpl. split.
    + intros [<-|[H Hn]]; tauto.
    + intros [[<-|H] Hn]; [tauto|].
      destruct (str_eqb b a) eqn:Eb; [apply str_eqb_eq in Eb; tauto|].
      right. split; [exact H|]. intros [->|H']; [|tauto].
      rewrite str_eqb_refl in Eb. discriminate.
Qed.

Lemma unique_In (l : list str) (a : str) : In a (unique l) <-> In a l.
Proof. unfold unique. rewrite unique_from_In. simpl. tauto. Qed.

(** The entry of [route_name_map] for a route name of the table is the first
    reference key that contains its normalised form. *)
Lemma route_name_map_get (csv_routes_raw : list str) (csv_name : str) :
  In csv_name csv_routes_raw ->
  dict_get (App.route_name_map geom _route_geometries csv_routes_raw) csv_name
  = App.first_containing (App.normalize_name (PyStr csv_name) true)
                         (List.map fst _route_geometries).
Proof.
  unfold App.route_name_map. cbv zeta.
  induction csv_routes_raw as [|a l IH]; [intros []|]. intros H. cbn [flat_map].
  destruct (str_eqb a csv_name) eqn:E.
  - apply str_eqb_eq in E. subst a.
    destruct (App.first_containing (App.normalize_name (PyStr csv_name) true)
                                   (List.map fst _route_geometries)) as [shp|] eqn:F.
    + cbn [app dict_get]. rewrite str_eqb_refl. reflexivity.
    + cbn [app]. clear IH H. induction l as [|b l IHl]; [reflexivity|].
      cbn [flat_map].
      destruct (App.first_containing (App.normalize_name (PyStr b) true)
                                     (List.map fst _route_geometries)) as [shp|] eqn:Fb;
        [|exact IHl].
      cbn [app dict_get]. destruct (str_eqb b csv_name) eqn:Eb; [|exact IHl].
      apply str_eqb_eq in Eb. subst b. congruence.
  - destruct H as [H|H]; [subst a; rewrite str_eqb_refl in E; discriminate|].
    destruct (App.first_containing (App.normalize_name (PyStr a) true)
                                   (List.map fst _route_geometries)) as [shp|];
      cbn [app dict_get]; rewrite ?E; exact (IH H).
Qed.

(** The two normalised columns of a row of [section_counts] are the
    PLACE-normalised parts of its section label. *)
Lemma section_counts_norms (filtered_df : list App.IncidentRecord) (row : App.SectionCount) :
  In row (App.section_counts filtered_df) ->
  App.sc_start_norm row = start_norm_of (App.sc_section_name row) /\
  App.sc_end_norm row = end_norm_of (App.sc_section_name row).
Proof.
  unfold App.section_counts. cbv zeta. intros H. apply in_map_iff in H.
  destruct H as [g [<- Hg]]. cbn [App.sc_start_norm App.sc_end_norm App.sc_section_name].
  split; [reflexivity|]. unfold end_norm_of.
  destruct (existsb _ _) eqn:E; [reflexivity|].
  assert (Hlen : (2 <=? List.length (split wave_dash (snd (fst g))))%nat = false).
  { destruct (2 <=? List.length (split wave_dash (snd (fst g))))%nat eqn:El; [|reflexivity].
    assert (existsb (fun parts => (2 <=? List.length parts)%nat)
                    (List.map (fun g => split wave_dash (snd (fst g)))
                         (App.group_counts filtered_df)) = true).
    { apply existsb_exists. exists (split wave_dash (snd (fst g))). split; [|exact El].
      apply in_map_iff. exists g. auto. }
    congruence. }
  apply Nat.leb_gt in Hlen. unfold App.split_column.
  destruct (nth_error (split wave_dash (snd (fst g))) 1) eqn:En; [|reflexivity].
  assert (nth_error (split wave_dash (snd (fst g))) 1 <> None) by congruence.
  apply nth_error_Some in H. lia.
Qed.

Lemma resolve_by_normalized_keys (name_rows : list App.SectionCount)
      (row1 row2 : App.SectionCount) :
  In row1 name_rows -> In row2 name_rows ->
  App.normalize_name (PyStr (App.sc_route_name row1)) true
  = App.normalize_name (PyStr (App.sc_route_name row2)) true ->
  App.sc_start_norm row1 = App.sc_start_norm row2 ->
  App.sc_end_norm row1 = App.sc_end_norm row2 ->
  let name_map :=
    App.route_name_map geom _route_geometries
                       (unique (List.map App.sc_route_name name_rows)) in
  App.resolve geom geom_bool distance haversine _ic_locations _route_geometries
              name_map row1
  = App.resolve geom geom_bool distance haversine _ic_locations _route_geometries
                name_map row2.
Proof.
  intros H1 H2 Hr Hs He. cbv zeta. unfold App.resolve.
  rewrite !route_name_map_get, Hr, Hs, He; [reflexivity| |];
    apply unique_In, in_map; assumption.
Qed.

End AggregationFacts.

(** C2, as stated, fails: the two sample incidents have the same normalised
    route, start and end keys, yet they are counted in two groups and give
    two map rows of count 1 with the same end points. *)
Lemma equal_keys_two_segments :
  App.normalize_name (PyStr (App.csv_route_name incident_halfwidth)) true
  = App.normalize_name (PyStr (App.csv_route_name incident_fullwidth)) true
  /\
  start_norm_of (App.csv_section_name incident_halfwidth)
  = start_norm_of (App.csv_section_name incident_fullwidth)
  /\
  end_norm_of (App.csv_section_name incident_halfwidth)
  = end_norm_of (App.csv_section_name incident_fullwidth)
  /\
  List.map App.sc_count (App.section_counts [incident_halfwidth; incident_fullwidth])
  = [1; 1]
  /\
  List.map (fun m => (App.mr_count m,
                 (App.start_lat m, App.start_lon m), (App.end_lat m, App.end_lon m)))
      (App.map_df unit (fun _ => true) on_route meridian_gap
                  sample_ic_locations sample_route_geometries
                  [incident_halfwidth; incident_fullwidth])
  = [(1, (36%float, 140%float), (37%float, 140%float));
     (1, (36%float, 140%float), (37%float, 140%float))].
Proof.
  repeat split; vm_compute; reflexivity.
Qed.

(** C2, amended: rows of the grouped incident table whose route name has the
    same ROUTE-normalised form and whose section label has the same
    PLACE-normalised start and end labels resolve to the same end points (or
    both fail to resolve); incidents are counted per raw (route, section)
    pair: the count of a group is the number of incidents with exactly that
    pair, and two identical incidents give one row of count 2 and at most one
    map row, of count 2. *)
Theorem resolution_by_normalized_keys
        (geom : Type) (geom_bool : geom -> bool)
        (distance : Shapely.Point -> geom -> float)
        (haversine : float * float -> float * float -> float)
        (_ic_locations : list (str * list Shapely.Point))
        (_route_geometries : list (str * geom))
        (filtered_df : list App.IncidentRecord)
        (row1 row2 : App.SectionCount) (k : str * str) (r : App.IncidentRecord) :
  (In row1 (App.section_counts filtered_df) ->
   In row2 (App.section_counts filtered_df) ->
   App.normalize_name (PyStr (App.sc_route_name row1)) true
   = App.normalize_name (PyStr (App.sc_route_name row2)) true ->
   start_norm_of (App.sc_section_name row1) = start_norm_of (App.sc_section_name row2) ->
   end_norm_of (App.sc_section_name row1) = end_norm_of (App.sc_section_name row2) ->
   let name_map :=
     App.route_name_map geom _route_geometries
                        (unique (List.map App.sc_route_name
                                     (App.section_counts filtered_df))) in
   App.resolve geom geom_bool distance haversine _ic_locations _route_geometries
               name_map row1
   = App.resolve geom geom_bool distance haversine _ic_locations _route_geometries
                 name_map row2)
  /\
  match group_get pair_compare k (App.group_counts filtered_df) with
  | Some a => fst a
  | None => 0
  end = key_count App.key_cols pair_compare k filtered_df
  /\
  List.map App.sc_count (App.section_counts [r; r]) = [2]
  /\
  (List.map App.mr_count
       (App.map_df geom geom_bool distance haversine _ic_locations _route_geometries
                   [r; r]) = [2]
   \/
   App.map_df geom geom_bool distance haversine _ic_locations _route_geometries
              [r; r] = []).
Proof.
  split; [|split].
  - intros H1 H2 Hr Hs He.
    destruct (section_counts_norms filtered_df row1 H1) as [S1 E1].
    destruct (section_counts_norms filtered_df row2 H2) as [S2 E2].
    apply resolve_by_normalized_keys; congruence.
  - apply (groupby_count (str * str) App.IncidentRecord (Z * float) App.key_cols
                         pair_compare _ _
                         pair_compare_eq pair_compare_antisym pair_compare_trans fst);
      reflexivity.
  - assert (G : App.group_counts [r; r]
                = [(App.key_cols r, (2, fillna (App.csv_length r) (App.csv_length r)))]).
    { unfold App.group_counts, groupby. cbn [fold_left group_insert].
      rewrite (proj2 (pair_compare_eq (App.key_cols r) (App.key_cols r)) eq_refl).
      reflexivity. }
    unfold App.map_df, App.section_counts. rewrite G. cbv zeta. cbn [List.map].
    split; [reflexivity|].
    unfold App.get_map_data. cbv zeta. cbn [flat_map].
    destruct (App.resolve _ _ _ _ _ _ _ _) as [[p0 p1]|]; [left | right]; reflexivity.
Qed.

Lemma resolution_by_normalized_keys_witness :
  App.resolve unit (fun _ => true) on_route meridian_gap
              sample_ic_locations sample_route_geometries
              (App.route_name_map
                 unit sample_route_geometries
                 (unique (List.map App.sc_route_name
                              (App.section_counts
                                 [incident_halfwidth; incident_fullwidth]))))
              row_halfwidth
  = App.resolve unit (fun _ => true) on_route meridian_gap
                sample_ic_locations sample_route_geometries
                (App.route_name_map
                   unit sample_route_geometries
                   (unique (List.map App.sc_route_name
                                (App.section_counts
                                   [incident_halfwidth; incident_fullwidth]))))
                row_fullwidth.
Proof.
  apply (proj1 (resolution_by_normalized_keys
                  unit (fun _ => true) on_route meridian_gap
                  sample_ic_locations sample_route_geometries
                  [incident_halfwidth; incident_fullwidth]
                  row_halfwidth row_fullwidth (lit "Joban", mito) incident_halfwidth)).
  - vm_compute. left. reflexivity.
  - vm_compute. right. left. reflexivity.
  - vm_compute. reflexivity.
  - vm_compute. reflexivity.
  - vm_compute. reflexivity.
Defined.

(** * Further properties of the normalisers *)

Section FoldingFacts.

Lemma replace_char_map (a b : char) (s : str) :
  replace [a] [b] s = List.map (fun c => if a =? c then b else c) s.
Proof.
  unfold replace. induction s as [|c s IH]; [reflexivity|].
  cbn [replace_from startswith List.map List.length pred]. unfold char_eqb.
  destruct (a =? c); cbn [andb]; rewrite IH; reflexivity.
Qed.

Lemma translate_map (s : str) :
  translate fullwidth_table s
  = List.map (fun c => if is_fullwidth c then c - 0xFEE0 else c) s.
Proof.
  unfold translate. apply map_ext. intros c. rewrite fullwidth_table_get.
  destruct (is_fullwidth c); reflexivity.
Qed.

(** The two folding steps work code point by code point. *)
Lemma folding_steps_map (s : str) :
  replace [ideographic_space] [space] (translate fullwidth_table s)
  = List.map fold_char s.
Proof.
  rewrite replace_char_map, translate_map, map_map. apply map_ext. intros c.
  unfold fold_char. rewrite (Z.eqb_sym ideographic_space). reflexivity.
Qed.

Lemma folding_steps_app (s t : str) :
  replace [ideographic_space] [space] (translate fullwidth_table (s ++ t))
  = replace [ideographic_space] [space] (translate fullwidth_table s)
    ++ replace [ideographic_space] [space] (translate fullwidth_table t).
Proof. rewrite !folding_steps_map. apply map_app. Qed.

Lemma roadkill_map_normalize_folded (v : pyobj) :
  forallb folded (RoadkillMap.normalize_name v) = true.
Proof.
  destruct v as [|name| | |]; try reflexivity.
  apply forallb_forall. intros c Hc. unfold RoadkillMap.normalize_name in Hc.
  apply strip_In in Hc.
  pose proof (folding_steps_folded name) as H. rewrite forallb_forall in H. auto.
Qed.

Lemma roadkill_map_normalize_no_outer_space (v : pyobj) :
  no_outer_space (RoadkillMap.normalize_name v) = true.
Proof.
  destruct v; try reflexivity. apply strip_no_outer_space.
Qed.

End FoldingFacts.

(** X1: the normaliser of [roadkill-map.py], which strips no designators, is
    idempotent, and its result is trimmed and free of full-width characters
    and ideographic spaces. *)
Theorem roadkill_map_normalize_idempotent (v : pyobj) :
  RoadkillMap.normalize_name (PyStr (RoadkillMap.normalize_name v))
  = RoadkillMap.normalize_name v
  /\ no_outer_space (RoadkillMap.normalize_name v) = true
  /\ forallb folded (RoadkillMap.normalize_name v) = true.
Proof.
  split; [|split].
  - unfold RoadkillMap.normalize_name at 1.
    rewrite (folding_steps_fixed _ (roadkill_map_normalize_folded v)).
    apply strip_fixed, roadkill_map_normalize_no_outer_space.
  - apply roadkill_map_normalize_no_outer_space.
  - apply roadkill_map_normalize_folded.
Qed.

(** X2: a normalised key is never longer than the label it comes from, in
    either mode of [app.py] and in [roadkill-map.py]. *)
Theorem normalize_name_never_longer (name : str) (is_route : bool) :
  (List.length (App.normalize_name (PyStr name) is_route) <= List.length name)%nat
  /\ (List.length (RoadkillMap.normalize_name (PyStr name)) <= List.length name)%nat.
Proof.
  assert (F : List.length (replace [ideographic_space] [space]
                                   (translate fullwidth_table name))
              = List.length name)
    by (rewrite folding_steps_map; apply length_map).
  unfold App.normalize_name, App.strip_suffixes, RoadkillMap.normalize_name.
  split.
  - destruct is_route.
    + destruct (endswith _ _).
      * pose proof (strip_length
                      (replace [road_char] []
                               (replace [ideographic_space] [space]
                                        (translate fullwidth_table name)))).
        pose proof (replace_length
                      [road_char]
                      (replace [ideographic_space] [space]
                               (translate fullwidth_table name))).
        lia.
      * pose proof (strip_length (replace [ideographic_space] [space]
                                          (translate fullwidth_table name))).
        lia.
    + pose proof (strip_length
                    (fold_left (fun n suffix => replace suffix [] n) App.suffixes
                               (replace [ideographic_space] [space]
                                        (translate fullwidth_table name)))).
      pose proof (fold_replace_length
                    App.suffixes
                    (replace [ideographic_space] [space]
                             (translate fullwidth_table name))).
      lia.
  - pose proof (strip_length (replace [ideographic_space] [space]
                                      (translate fullwidth_table name))).
    lia.
Qed.

(** X3: two labels that agree code point by code point up to character width
    (a full-width character against its half-width form, an ideographic space
    against a space) have the same key, in every normaliser. *)
Theorem normalize_name_width_insensitive (s t : str) (is_route : bool) :
  Forall2 (fun a b => fold_char a = fold_char b) s t ->
  App.normalize_name (PyStr s) is_route = App.normalize_name (PyStr t) is_route
  /\ AppSimple.normalize_name (PyStr s) is_route
     = AppSimple.normalize_name (PyStr t) is_route
  /\ RoadkillMap.normalize_name (PyStr s) = RoadkillMap.normalize_name (PyStr t).
Proof.
  intros H.
  assert (E : List.map fold_char s = List.map fold_char t).
  { induction H as [|a b s t Hab _ IH]; [reflexivity|]. simpl. congruence. }
  unfold AppSimple.normalize_name, App.normalize_name, RoadkillMap.normalize_name.
  rewrite !folding_steps_map, E. auto.
Qed.

Lemma normalize_name_width_insensitive_witness :
  App.normalize_name (PyStr [0x6C34; 0x6238; 0xFF29; 0xFF23; 0x3000]) false
  = App.normalize_name (PyStr [0x6C34; 0x6238; 0x49; 0x43; 0x20]) false.
Proof.
  apply (normalize_name_width_insensitive
           [0x6C34; 0x6238; 0xFF29; 0xFF23; 0x3000] [0x6C34; 0x6238; 0x49; 0x43; 0x20] false).
  repeat constructor.
Defined.

(** ** White space around a label *)

Section PaddingFacts.

Lemma fold_char_isspace (c : char) : isspace c = true -> isspace (fold_char c) = true.
Proof.
  intros H. unfold fold_char.
  assert (F : is_fullwidth c = false).
  { unfold is_fullwidth. apply andb_false_iff.
    unfold isspace in H.
    repeat rewrite orb_true_iff in H. repeat rewrite andb_true_iff in H.
    repeat rewrite Z.leb_le in H. repeat rewrite Z.eqb_eq in H.
    destruct (Z.leb_spec 0xFF01 c); [right|left; reflexivity].
    destruct (Z.leb_spec c 0xFF5E); [lia|reflexivity]. }
  rewrite F. destruct (c =? ideographic_space); [reflexivity | exact H].
Qed.

Lemma fold_space_only (w : str) :
  forallb isspace w = true -> forallb isspace (List.map fold_char w) = true.
Proof.
  induction w as [|c w IH]; simpl; [reflexivity|].
  rewrite !andb_true_iff. intros [H1 H2]. split; [apply fold_char_isspace, H1 | auto].
Qed.

Lemma lstrip_space_app (w x : str) : forallb isspace w = true -> lstrip (w ++ x) = lstrip x.
Proof.
  induction w as [|c w IH]; simpl; [reflexivity|].
  rewrite andb_true_iff. intros [H1 H2]. rewrite H1. auto.
Qed.

Lemma lstrip_space_only (w : str) : forallb isspace w = true -> lstrip w = [].
Proof.
  intros H. rewrite <- (app_nil_r w). rewrite lstrip_space_app; auto.
Qed.

Lemma forallb_rev (A : Type) (f : A -> bool) (l : list A) :
  forallb f l = true -> forallb f (rev l) = true.
Proof.
  rewrite !forallb_forall. intros H a Ha. apply H, in_rev, Ha.
Qed.

Lemma rstrip_app_space (x w : str) : forallb isspace w = true -> rstrip (x ++ w) = rstrip x.
Proof.
  intros H. unfold rstrip. rewrite rev_app_distr, lstrip_space_app; [reflexivity|].
  apply forallb_rev, H.
Qed.

(** Blanks before and after a string do not survive [strip]. *)
Lemma strip_padding (w x w' : str) :
  forallb isspace w = true -> forallb isspace w' = true ->
  strip (w ++ x ++ w') = strip x.
Proof.
  intros Hw Hw'. unfold strip. rewrite (lstrip_space_app w _ Hw).
  assert (H : lstrip (x ++ w') = lstrip x ++ w'
              \/ (lstrip x = [] /\ lstrip (x ++ w') = [])).
  { induction x as [|c x IH]; simpl.
    - right. split; [reflexivity | apply lstrip_space_only, Hw'].
    - destruct (isspace c); [exact IH | left; reflexivity]. }
  destruct H as [H|[H1 H2]].
  - rewrite H. apply rstrip_app_space, Hw'.
  - rewrite H1, H2. reflexivity.
Qed.

Lemma startswith_length (p s : str) :
  startswith p s = true -> (List.length p <= List.length s)%nat.
Proof.
  revert s; induction p as [|a p IH]; intros [|b s]; simpl; try lia; try discriminate.
  rewrite andb_true_iff. intros [_ H]. apply IH in H. lia.
Qed.

(** A string without blanks starts neither on a blank nor across the end into
    blanks. *)
Lemma startswith_app_space (old x w : str) :
  forallb (fun c => negb (isspace c)) old = true -> forallb isspace w = true ->
  startswith old (x ++ w) = startswith old x.
Proof.
  revert x; induction old as [|o old IH]; intros x Ho Hw; [destruct x; reflexivity|].
  simpl in Ho. apply andb_true_iff in Ho. destruct Ho as [Ho Hold].
  destruct x as [|c x]; simpl.
  - destruct w as [|c w]; [reflexivity|]. simpl in Hw. apply andb_true_iff in Hw.
    destruct Hw as [Hc _]. unfold char_eqb.
    destruct (Z.eqb_spec o c) as [->|]; [|reflexivity].
    rewrite Hc in Ho. discriminate.
  - rewrite IH; auto.
Qed.

Lemma replace_from_app_space (o : char) (old x w : str) :
  forallb (fun c => negb (isspace c)) (o :: old) = true -> forallb isspace w = true ->
  forall k, (k <= List.length x)%nat ->
            replace_from (o :: old) [] k (x ++ w) = replace_from (o :: old) [] k x ++ w.
Proof.
  intros Ho Hw. induction x as [|c x IH]; intros k Hk.
  - assert (k = 0%nat) by (simpl in Hk; lia). subst k. cbn [app replace_from].
    clear Hk. induction w as [|c w IHw]; [reflexivity|].
    simpl in Hw. apply andb_true_iff in Hw. destruct Hw as [Hc Hw].
    cbn [replace_from].
    replace (startswith (o :: old) (c :: w)) with false.
    + rewrite (IHw Hw). reflexivity.
    + simpl in Ho. apply andb_true_iff in Ho. destruct Ho as [Ho _].
      simpl. unfold char_eqb. destruct (Z.eqb_spec o c) as [->|]; [|reflexivity].
      rewrite Hc in Ho. discriminate.
  - cbn [app replace_from]. destruct k as [|k].
    + change (c :: x ++ w) with ((c :: x) ++ w).
      rewrite (startswith_app_space (o :: old) (c :: x) w Ho Hw).
      destruct (startswith (o :: old) (c :: x)) eqn:E.
      * apply startswith_length in E. simpl in E. cbn [app].
        apply IH. simpl. lia.
      * cbn [app]. f_equal. apply IH. lia.
    + apply IH. simpl in Hk. lia.
Qed.

Lemma replace_from_space_app (o : char) (old w x : str) :
  forallb (fun c => negb (isspace c)) (o :: old) = true -> forallb isspace w = true ->
  replace_from (o :: old) [] 0 (w ++ x) = w ++ replace_from (o :: old) [] 0 x.
Proof.
  intros Ho Hw. induction w as [|c w IH]; [reflexivity|].
  simpl in Hw. apply andb_true_iff in Hw. destruct Hw as [Hc Hw].
  cbn [app replace_from].
  replace (startswith (o :: old) (c :: w ++ x)) with false.
  - rewrite (IH Hw). reflexivity.
  - simpl in Ho. apply andb_true_iff in Ho. destruct Ho as [Ho _].
    simpl. unfold char_eqb. destruct (Z.eqb_spec o c) as [->|]; [|reflexivity].
    rewrite Hc in Ho. discriminate.
Qed.

(** Removing a string without blanks leaves the blanks around a label in
    place. *)
Lemma replace_padding (old w x w' : str) :
  old <> [] -> forallb (fun c => negb (isspace c)) old = true ->
  forallb isspace w = true -> forallb isspace w' = true ->
  replace old [] (w ++ x ++ w') = w ++ replace old [] x ++ w'.
Proof.
  intros Hne Ho Hw Hw'. destruct old as [|o old]; [congruence|]. unfold replace.
  rewrite (replace_from_space_app o old w _ Ho Hw).
  rewrite (replace_from_app_space o old x w' Ho Hw' 0%nat); [reflexivity | lia].
Qed.

Lemma fold_replace_padding (l : list str) :
  Forall (fun old => old <> [] /\ forallb (fun c => negb (isspace c)) old = true) l ->
  forall w x w',
    forallb isspace w = true -> forallb isspace w' = true ->
    fold_left (fun n suffix => replace suffix [] n) l (w ++ x ++ w')
    = w ++ fold_left (fun n suffix => replace suffix [] n) l x ++ w'.
Proof.
  induction 1 as [|old l [Hne Ho] _ IH]; intros w x w' Hw Hw'; [reflexivity|].
  cbn [fold_left]. rewrite (replace_padding old w x w' Hne Ho Hw Hw'). apply IH; auto.
Qed.

Lemma suffixes_without_blanks :
  Forall (fun old => old <> [] /\ forallb (fun c => negb (isspace c)) old = true)
         App.suffixes.
Proof.
  repeat constructor; discriminate.
Qed.

End PaddingFacts.

(** X4: white space (also an ideographic space) before and after a label
    does not change its key in PLACE mode and in [roadkill-map.py]; in ROUTE
    mode the same holds for white space before the name. *)
Theorem normalize_name_ignores_padding (w name w' : str) :
  forallb isspace w = true -> forallb isspace w' = true ->
  App.normalize_name (PyStr (w ++ name ++ w')) false
  = App.normalize_name (PyStr name) false
  /\ RoadkillMap.normalize_name (PyStr (w ++ name ++ w'))
     = RoadkillMap.normalize_name (PyStr name)
  /\ App.normalize_name (PyStr (w ++ name)) true = App.normalize_name (PyStr name) true.
Proof.
  intros Hw Hw'.
  pose proof (fold_space_only w Hw) as Fw. pose proof (fold_space_only w' Hw') as Fw'.
  unfold App.normalize_name, App.strip_suffixes, RoadkillMap.normalize_name.
  rewrite !folding_steps_map, !map_app. split; [|split].
  - rewrite (fold_replace_padding App.suffixes suffixes_without_blanks _ _ _ Fw Fw').
    apply strip_padding; assumption.
  - apply strip_padding; assumption.
  - assert (E : endswith [road_char] (List.map fold_char w ++ List.map fold_char name)
                = endswith [road_char] (List.map fold_char name)).
    { unfold endswith. rewrite rev_app_distr.
      destruct (rev (List.map fold_char name)) as [|c r] eqn:Er; [|reflexivity].
      cbn [app]. pose proof (forallb_rev _ _ _ Fw) as Hr.
      destruct (rev (List.map fold_char w)) as [|c r]; [reflexivity|].
      simpl in Hr. apply andb_true_iff in Hr. destruct Hr as [Hc _].
      cbn [rev app startswith]. unfold char_eqb.
      destruct (Z.eqb_spec road_char c) as [<-|]; [|reflexivity].
      vm_compute in Hc. discriminate. }
    rewrite E. destruct (endswith [road_char] (List.map fold_char name)).
    + pose proof (replace_padding [road_char] (List.map fold_char w)
                                  (List.map fold_char name) []) as R.
      rewrite !app_nil_r in R. rewrite R; try reflexivity; try assumption;
        try discriminate.
      pose proof (strip_padding (List.map fold_char w)
                                (replace [road_char] [] (List.map fold_char name)) []) as S.
      rewrite !app_nil_r in S. apply S; [assumption | reflexivity].
    + pose proof (strip_padding (List.map fold_char w) (List.map fold_char name) []) as S.
      rewrite !app_nil_r in S. apply S; [assumption | reflexivity].
Qed.

Lemma normalize_name_ignores_padding_witness :
  App.normalize_name (PyStr ([0x3000; 0x20] ++ lit "Mito IC" ++ [0x09])) false
  = App.normalize_name (PyStr (lit "Mito IC")) false.
Proof.
  apply (normalize_name_ignores_padding [0x3000; 0x20] (lit "Mito IC") [0x09]);
    reflexivity.
Defined.

(** * The interchange designators of [process_data.py] *)

Section DesignatorFacts.

Lemma startswith_app_self (p x : str) : startswith p (p ++ x) = true.
Proof.
  induction p as [|a p IH]; [reflexivity|]. simpl. unfold char_eqb.
  rewrite Z.eqb_refl. exact IH.
Qed.

Lemma startswith_split (p s : str) : startswith p s = true -> exists x, s = p ++ x.
Proof.
  revert s; induction p as [|a p IH]; intros s H; [exists s; reflexivity|].
  destruct s as [|b s]; [discriminate|]. simpl in H. apply andb_true_iff in H.
  destruct H as [E H]. apply char_eqb_eq in E. subst b.
  destruct (IH s H) as [x ->]. exists x. reflexivity.
Qed.

Lemma endswith_app_self (p x : str) : endswith p (x ++ p) = true.
Proof. unfold endswith. rewrite rev_app_distr. apply startswith_app_self. Qed.

Lemma endswith_split (p s : str) : endswith p s = true -> exists x, s = x ++ p.
Proof.
  unfold endswith. intros H. apply startswith_split in H. destruct H as [x H].
  exists (rev x). rewrite <- (rev_involutive s), H, rev_app_distr, rev_involutive.
  reflexivity.
Qed.

Lemma endswith_app (p x y : str) : endswith p y = true -> endswith p (x ++ y) = true.
Proof.
  intros H. apply endswith_split in H. destruct H as [z ->].
  rewrite app_assoc. apply endswith_app_self.
Qed.

Lemma ends_with_designator_app (x y : str) :
  ends_with_designator y = true -> ends_with_designator (x ++ y) = true.
Proof.
  unfold ends_with_designator. rewrite !existsb_exists.
  intros [d [Hd H]]. exists d. split; [exact Hd | apply endswith_app, H].
Qed.

Lemma contains_first_In (o : char) (old s : str) :
  contains (o :: old) s = true -> In o s.
Proof.
  induction s as [|c s IH]; [discriminate|].
  change (contains (o :: old) (c :: s))
    with (startswith (o :: old) (c :: s) || contains (o :: old) s).
  rewrite orb_true_iff. intros [H|H]; [|right; auto].
  simpl in H. apply andb_true_iff in H. destruct H as [H _].
  apply char_eqb_eq in H. left. auto.
Qed.

(** For a two-letter designator the occurrence appended at the end is
    removed without disturbing the occurrences before it. *)
Lemma replace_from_append_pair (a b : char) (s : str) :
  a <> b ->
  forall k, (k = 0%nat \/ (k = 1%nat /\ exists t, s = b :: t)) ->
            replace_from [a; b] [] k (s ++ [a; b]) = replace_from [a; b] [] k s.
Proof.
  intros Hab. induction s as [|c s IH]; intros k Hk.
  - destruct Hk as [->|[_ [t Ht]]]; [|discriminate].
    cbn. unfold char_eqb. rewrite !Z.eqb_refl. reflexivity.
  - cbn [app replace_from]. destruct Hk as [->|[-> _]].
    + assert (E : startswith [a; b] (c :: s ++ [a; b]) = startswith [a; b] (c :: s)).
      { cbn [startswith]. destruct s as [|d s]; cbn [app]; [|reflexivity].
        unfold char_eqb. destruct (Z.eqb_spec a c), (Z.eqb_spec b a); cbn [andb];
          try reflexivity. congruence. }
      rewrite E. destruct (startswith [a; b] (c :: s)) eqn:F.
      * cbn [List.length pred app]. apply IH. right. split; [reflexivity|].
        cbn [startswith] in F.
        destruct s as [|d s]; [rewrite andb_false_r in F; discriminate|].
        apply andb_true_iff in F. destruct F as [_ F]. apply andb_true_iff in F.
        destruct F as [F _]. apply char_eqb_eq in F. subst d. exists s. reflexivity.
      * f_equal. apply IH. left. reflexivity.
    + apply IH. left. reflexivity.
Qed.

Lemma lstrip_app_word (y d : str) :
  match d with [] => false | c :: _ => negb (isspace c) end = true ->
  lstrip (y ++ d) = lstrip y ++ d.
Proof.
  intros H. induction y as [|c y IH]; simpl.
  - destruct d as [|c d]; [discriminate|]. simpl. apply negb_true_iff in H.
    rewrite H. reflexivity.
  - destruct (isspace c); [exact IH | reflexivity].
Qed.

Lemma rstrip_app_word (z d : str) :
  match rev d with [] => false | c :: _ => negb (isspace c) end = true ->
  rstrip (z ++ d) = z ++ d.
Proof.
  intros H. unfold rstrip. rewrite rev_app_distr.
  destruct (rev d) as [|c r] eqn:E; [discriminate|].
  cbn [app lstrip]. apply negb_true_iff in H. rewrite H.
  change (c :: r ++ rev z) with ((c :: r) ++ rev z).
  rewrite <- E, <- rev_app_distr. apply rev_involutive.
Qed.

(** The designators are ASCII words: folding leaves them alone and they
    neither start nor end with a blank. *)
Lemma designators_plain (d : str) :
  In d ProcessData.suffixes ->
  List.map fold_char d = d
  /\ match d with [] => false | c :: _ => negb (isspace c) end = true
  /\ match rev d with [] => false | c :: _ => negb (isspace c) end = true.
Proof.
  intros H. simpl in H.
  repeat (destruct H as [<-|H]; [repeat split; reflexivity|]). destruct H.
Qed.

(** A name that ends with a designator keeps it through the normaliser of
    [roadkill-map.py]. *)
Lemma roadkill_map_normalize_keeps_designator (t : str) :
  ends_with_designator t = true ->
  ends_with_designator (RoadkillMap.normalize_name (PyStr t)) = true.
Proof.
  unfold ends_with_designator at 1. rewrite existsb_exists. intros [d [Hd H]].
  destruct (designators_plain d Hd) as [Hf [Hh Hl]].
  apply endswith_split in H. destruct H as [x ->].
  unfold RoadkillMap.normalize_name. rewrite folding_steps_map, map_app, Hf.
  unfold strip. rewrite (lstrip_app_word _ d Hh), (rstrip_app_word _ d Hl).
  unfold ends_with_designator. apply existsb_exists. exists d.
  split; [exact Hd | apply endswith_app_self].
Qed.

Lemma suffixed_ends_with_designator (s : str) : ends_with_designator (suffixed s) = true.
Proof.
  unfold suffixed, ProcessData.add_ic_suffix.
  destruct (existsb (fun suffix => endswith suffix s) ProcessData.suffixes) eqn:E;
    [exact E|].
  unfold ends_with_designator. apply existsb_exists. exists (lit "IC").
  split; [simpl; tauto | apply endswith_app_self].
Qed.

End DesignatorFacts.


(** X6: the designator [add_ic_suffix] appends is invisible to the PLACE
    normaliser of [app.py]: a name and its suffixed form have the same key. *)
Theorem add_ic_suffix_same_place_key (v : pyobj) :
  App.normalize_name (ProcessData.add_ic_suffix v) false = App.normalize_name v false.
Proof.
  destruct v as [|s| | |]; try reflexivity.
  unfold ProcessData.add_ic_suffix. destruct (existsb _ _); [reflexivity|].
  unfold App.normalize_name. rewrite !folding_steps_map, map_app.
  change (List.map fold_char (lit "IC")) with [0x49; 0x43].
  f_equal. unfold App.strip_suffixes, App.suffixes. cbn [fold_left].
  assert (N : forall x, contains [0xFF29; 0xFF23] (List.map fold_char s ++ x) = true ->
                        In 0xFF29 x).
  { intros x H. apply contains_first_In in H. apply in_app_or in H.
    destruct H as [H|H]; [|exact H]. exfalso.
    pose proof (folding_steps_folded s) as F. rewrite folding_steps_map in F.
    rewrite forallb_forall in F. apply F in H. vm_compute in H. discriminate. }
  rewrite (replace_absent [0xFF29; 0xFF23] [] (List.map fold_char s ++ [0x49; 0x43])).
  - rewrite (replace_absent [0xFF29; 0xFF23] [] (List.map fold_char s)).
    + change (lit "IC") with [0x49; 0x43].
      assert (R : replace [0x49; 0x43] [] (List.map fold_char s ++ [0x49; 0x43])
                  = replace [0x49; 0x43] [] (List.map fold_char s)).
      { unfold replace. apply replace_from_append_pair; [lia | left; reflexivity]. }
      rewrite R. reflexivity.
    + destruct (contains [0xFF29; 0xFF23] (List.map fold_char s)) eqn:E; [|reflexivity].
      rewrite <- (app_nil_r (List.map fold_char s)) in E. apply N in E. destruct E.
  - destruct (contains [0xFF29; 0xFF23] (List.map fold_char s ++ [0x49; 0x43])) eqn:E;
      [|reflexivity].
    apply N in E. simpl in E. lia.
Qed.

(** * More on grouping *)

Section GroupByMore.

Variables K R A : Type.
Variable key : R -> K.
Variable cmp : K -> K -> comparison.
Variable init : R -> A.
Variable step : A -> R -> A.

(** Every group comes from a record. *)
Lemma fold_insert_key_from (rs : list R) :
  forall gs g,
    In g (fold_left (fun gs r => group_insert key cmp init step r gs) rs gs) ->
    (exists g', In g' gs /\ fst g' = fst g) \/ (exists r, In r rs /\ key r = fst g).
Proof.
  induction rs as [|r rs IH]; intros gs g H; cbn [fold_left] in H.
  - left. exists g. auto.
  - apply IH in H. destruct H as [[g' [H1 H2]]|[r' [H1 H2]]].
    + apply group_insert_fst in H1. destruct H1 as [H1|[g'' [H1 H3]]].
      * right. exists r. split; [left; reflexivity | congruence].
      * left. exists g''. split; [exact H1 | congruence].
    + right. exists r'. split; [right; exact H1 | exact H2].
Qed.

Lemma groupby_key_from (rs : list R) (g : K * A) :
  In g (groupby key cmp init step rs) -> exists r, In r rs /\ key r = fst g.
Proof.
  intros H. apply fold_insert_key_from in H.
  destruct H as [[g' [[] _]]|H]. exact H.
Qed.

Variable cnt : A -> Z.
Hypothesis cnt_init : forall r, cnt (init r) = 1.
Hypothesis cnt_step : forall a r, cnt (step a r) = cnt a + 1.

Lemma group_insert_total (r : R) (gs : list (K * A)) :
  total (List.map (fun g => cnt (snd g)) (group_insert key cmp init step r gs))
  = total (List.map (fun g => cnt (snd g)) gs) + 1.
Proof.
  unfold total. induction gs as [|[k a] gs IH]; simpl.
  - rewrite cnt_init. lia.
  - destruct (cmp (key r) k); simpl; rewrite ?cnt_init, ?cnt_step, ?IH; lia.
Qed.

(** Grouping neither loses nor repeats a record. *)
Lemma groupby_total (rs : list R) :
  total (List.map (fun g => cnt (snd g)) (groupby key cmp init step rs))
  = Z.of_nat (List.length rs).
Proof.
  unfold groupby.
  assert (H : forall gs,
             total (List.map (fun g => cnt (snd g))
                        (fold_left (fun gs r => group_insert key cmp init step r gs) rs gs))
             = total (List.map (fun g => cnt (snd g)) gs) + Z.of_nat (List.length rs)).
  { induction rs as [|r rs IH]; intros gs; cbn [fold_left List.length].
    - lia.
    - rewrite IH, group_insert_total. lia. }
  rewrite H. reflexivity.
Qed.

Lemma group_insert_positive (r : R) (gs : list (K * A)) :
  Forall (fun g => 1 <= cnt (snd g)) gs ->
  Forall (fun g => 1 <= cnt (snd g)) (group_insert key cmp init step r gs).
Proof.
  induction 1 as [|[k a] gs H Hf IH]; simpl.
  - constructor; [simpl; rewrite cnt_init; lia | constructor].
  - destruct (cmp (key r) k).
    + constructor; [simpl in *; rewrite cnt_step; lia | exact Hf].
    + constructor; [simpl; rewrite cnt_init; lia|]. constructor; assumption.
    + constructor; assumption.
Qed.

Lemma groupby_positive (rs : list R) :
  Forall (fun g => 1 <= cnt (snd g)) (groupby key cmp init step rs).
Proof.
  unfold groupby.
  assert (H : forall gs,
             Forall (fun g => 1 <= cnt (snd g)) gs ->
             Forall (fun g => 1 <= cnt (snd g))
                    (fold_left (fun gs r => group_insert key cmp init step r gs) rs gs)).
  { induction rs as [|r rs IH]; intros gs Hgs; cbn [fold_left]; [exact Hgs|].
    apply IH, group_insert_positive, Hgs. }
  apply H. constructor.
Qed.

Hypothesis cmp_eq : forall a b, cmp a b = Eq <-> a = b.

Lemma sorted_keys_NoDup (gs : list (K * A)) :
  StronglySorted (key_lt cmp) gs -> NoDup (List.map fst gs).
Proof.
  induction 1 as [|g gs Hs IH Hf]; simpl; constructor; [|exact IH].
  intros Hin. apply in_map_iff in Hin. destruct Hin as [h [E Hh]].
  rewrite Forall_forall in Hf. specialize (Hf h Hh). unfold key_lt in Hf.
  rewrite E, (proj2 (cmp_eq _ _) eq_refl) in Hf. discriminate.
Qed.

(** In a strictly increasing table a row is found under its own key. *)
Lemma group_get_In (gs : list (K * A)) (g : K * A) :
  StronglySorted (key_lt cmp) gs -> In g gs -> group_get cmp (fst g) gs = Some (snd g).
Proof.
  induction 1 as [|h gs Hs IH Hf]; intros Hin; [destruct Hin|].
  destruct h as [k a]. rewrite (group_get_cons K A cmp).
  destruct Hin as [<-|Hin].
  - simpl. rewrite (proj2 (cmp_eq _ _) eq_refl). reflexivity.
  - rewrite Forall_forall in Hf. specialize (Hf g Hin). unfold key_lt in Hf. simpl in Hf.
    destruct (cmp (fst g) k) eqn:E; [|exact (IH Hin)|exact (IH Hin)].
    apply cmp_eq in E. rewrite E, (proj2 (cmp_eq _ _) eq_refl) in Hf. discriminate.
Qed.

End GroupByMore.

(** * The grouped tables and the map rows *)

Section TableFacts.

Lemma StronglySorted_map (A B : Type) (RA : A -> A -> Prop) (RB : B -> B -> Prop)
      (f : A -> B) (l : list A) :
  (forall a b, RA a b -> RB (f a) (f b)) ->
  StronglySorted RA l -> StronglySorted RB (List.map f l).
Proof.
  intros H. induction 1 as [|a l Hs IH Hf]; simpl; constructor; [exact IH|].
  apply Forall_forall. intros b Hb. apply in_map_iff in Hb.
  destruct Hb as [a' [<- Ha']]. rewrite Forall_forall in Hf. auto.
Qed.

Lemma group_counts_sorted (filtered_df : list App.IncidentRecord) :
  StronglySorted (key_lt pair_compare) (App.group_counts filtered_df).
Proof.
  apply groupby_sorted; [apply pair_compare_antisym | apply pair_compare_trans].
Qed.

Lemma section_counts_keys (filtered_df : list App.IncidentRecord) :
  List.map (fun r => (App.sc_route_name r, App.sc_section_name r))
      (App.section_counts filtered_df)
  = List.map fst (App.group_counts filtered_df).
Proof.
  unfold App.section_counts. cbv zeta. rewrite map_map. apply map_ext.
  intros [[a b] c]. reflexivity.
Qed.

Lemma section_counts_counts (filtered_df : list App.IncidentRecord) :
  List.map App.sc_count (App.section_counts filtered_df)
  = List.map (fun g => fst (snd g)) (App.group_counts filtered_df).
Proof.
  unfold App.section_counts. cbv zeta. rewrite map_map. apply map_ext.
  intros g. reflexivity.
Qed.

(** A row of [section_counts] counts the incidents with its raw pair. *)
Lemma section_counts_row_count (filtered_df : list App.IncidentRecord)
      (row : App.SectionCount) :
  In row (App.section_counts filtered_df) ->
  App.sc_count row
  = key_count App.key_cols pair_compare
              (App.sc_route_name row, App.sc_section_name row) filtered_df
  /\ 1 <= App.sc_count row.
Proof.
  unfold App.section_counts. cbv zeta. intros H. apply in_map_iff in H.
  destruct H as [g [<- Hg]]. cbn [App.sc_count App.sc_route_name App.sc_section_name].
  split.
  - rewrite <- (groupby_count (str * str) App.IncidentRecord (Z * float) App.key_cols
                              pair_compare
                              (fun r => (1, App.csv_length r))
                              (fun a r => (fst a + 1, fillna (snd a) (App.csv_length r)))
                              pair_compare_eq pair_compare_antisym pair_compare_trans fst);
      [|reflexivity|reflexivity].
    fold (App.group_counts filtered_df).
    replace (fst (fst g), snd (fst g)) with (fst g) by (destruct g as [[a b] c]; reflexivity).
    rewrite (group_get_In (str * str) (Z * float) pair_compare pair_compare_eq
                          (App.group_counts filtered_df) g
                          (group_counts_sorted filtered_df) Hg).
    reflexivity.
  - pose proof (groupby_positive (str * str) App.IncidentRecord (Z * float) App.key_cols
                                 pair_compare
                                 (fun r => (1, App.csv_length r))
                                 (fun a r => (fst a + 1, fillna (snd a) (App.csv_length r)))
                                 fst (fun _ => eq_refl) (fun _ _ => eq_refl)
                                 filtered_df) as P.
    rewrite Forall_forall in P. exact (P g Hg).
Qed.

Lemma app_section_counts_NoDup (filtered_df : list App.IncidentRecord) :
  NoDup (List.map (fun r => (App.sc_route_name r, App.sc_section_name r))
             (App.section_counts filtered_df)).
Proof.
  rewrite section_counts_keys.
  apply (sorted_keys_NoDup (str * str) (Z * float) pair_compare pair_compare_eq).
  apply group_counts_sorted.
Qed.

Lemma app_section_counts_total (filtered_df : list App.IncidentRecord) :
  total (List.map App.sc_count (App.section_counts filtered_df))
  = Z.of_nat (List.length filtered_df).
Proof.
  rewrite section_counts_counts.
  apply (groupby_total (str * str) App.IncidentRecord (Z * float) App.key_cols
                       pair_compare _ _ fst); reflexivity.
Qed.

End TableFacts.

(** X8: the grouped incident table of [app.py] has its rows in strictly
    increasing order of the raw (route, section) pair, hence one row per
    pair; the grouped table of [roadkill-map.py] has one row per normalised
    section label, in increasing order. *)
Theorem section_counts_one_row_per_key
        (filtered_df : list App.IncidentRecord)
        (precut_df : list RoadkillMap.IncidentRecord) :
  StronglySorted
    (fun r1 r2 => pair_compare (App.sc_route_name r1, App.sc_section_name r1)
                               (App.sc_route_name r2, App.sc_section_name r2) = Lt)
    (App.section_counts filtered_df)
  /\ NoDup (List.map (fun r => (App.sc_route_name r, App.sc_section_name r))
                (App.section_counts filtered_df))
  /\ StronglySorted
       (fun r1 r2 => str_compare (RoadkillMap.section_norm r1)
                                 (RoadkillMap.section_norm r2) = Lt)
       (RoadkillMap.section_counts precut_df)
  /\ NoDup (List.map RoadkillMap.section_norm (RoadkillMap.section_counts precut_df)).
Proof.
  assert (S2 : StronglySorted
                 (fun r1 r2 => str_compare (RoadkillMap.section_norm r1)
                                           (RoadkillMap.section_norm r2) = Lt)
                 (RoadkillMap.section_counts precut_df)
               /\ NoDup (List.map RoadkillMap.section_norm
                             (RoadkillMap.section_counts precut_df))).
  { unfold RoadkillMap.section_counts. destruct precut_df as [|r0 df].
    - split; constructor.
    - split.
      + eapply StronglySorted_map;
          [|apply groupby_sorted; [apply str_compare_antisym | apply str_compare_trans]].
        intros a b H. exact H.
      + rewrite map_map. cbn [RoadkillMap.section_norm].
        apply (sorted_keys_NoDup str (Z * float * str) str_compare str_compare_eq).
        apply groupby_sorted; [apply str_compare_antisym | apply str_compare_trans]. }
  split; [|split; [|exact S2]].
  - unfold App.section_counts. cbv zeta.
    eapply StronglySorted_map; [|apply group_counts_sorted].
    intros [[a1 b1] c1] [[a2 b2] c2] H. exact H.
  - apply app_section_counts_NoDup.
Qed.

(** X9: grouping neither loses nor repeats an incident: the counts of the
    grouped table add up to the number of filtered incidents and every count
    is at least 1, in [app.py] and in [roadkill-map.py]. *)
Theorem section_counts_total
        (filtered_df : list App.IncidentRecord)
        (precut_df : list RoadkillMap.IncidentRecord) :
  total (List.map App.sc_count (App.section_counts filtered_df))
  = Z.of_nat (List.length filtered_df)
  /\ Forall (fun r => 1 <= App.sc_count r) (App.section_counts filtered_df)
  /\ total (List.map RoadkillMap.sc_count (RoadkillMap.section_counts precut_df))
     = Z.of_nat (List.length precut_df)
  /\ Forall (fun r => 1 <= RoadkillMap.sc_count r) (RoadkillMap.section_counts precut_df).
Proof.
  split; [|split; [|split]].
  - apply app_section_counts_total.
  - apply Forall_forall. intros r Hr. apply (section_counts_row_count filtered_df r Hr).
  - unfold RoadkillMap.section_counts. destruct precut_df as [|r0 df]; [reflexivity|].
    rewrite map_map. cbn [RoadkillMap.sc_count].
    apply (groupby_total str RoadkillMap.IncidentRecord (Z * float * str)
                         RoadkillMap.section_norm_of str_compare _ _
                         (fun a => fst (fst a))); reflexivity.
  - unfold RoadkillMap.section_counts. destruct precut_df as [|r0 df]; [constructor|].
    apply Forall_forall. intros r Hr. apply in_map_iff in Hr. destruct Hr as [g [<- Hg]].
    cbn [RoadkillMap.sc_count].
    pose proof (groupby_positive str RoadkillMap.IncidentRecord (Z * float * str)
                                 RoadkillMap.section_norm_of str_compare
                                 (fun r => (1, RoadkillMap.csv_length r,
                                            RoadkillMap.csv_route_name r))
                                 (fun a r => (fst (fst a) + 1,
                                              fillna (snd (fst a)) (RoadkillMap.csv_length r),
                                              snd a))
                                 (fun a => fst (fst a)) (fun _ => eq_refl)
                                 (fun _ _ => eq_refl) (r0 :: df)) as P.
    rewrite Forall_forall in P. exact (P g Hg).
Qed.

Section MapRowFacts.

Import Shapely.

Variable geom : Type.
Variable geom_bool : geom -> bool.
Variable distance : Point -> geom -> float.
Variable haversine : float * float -> float * float -> float.
Variable _ic_locations : list (str * list Point).
Variable _route_geometries : list (str * geom).

(** Every map row is built from a row of the grouped table that resolved. *)
Lemma get_map_data_In (_section_counts : list App.SectionCount) (mr : App.MapRow) :
  In mr (App.get_map_data geom geom_bool distance haversine _ic_locations
                          _route_geometries _section_counts) ->
  exists row p0 p1,
    In row _section_counts
    /\ App.resolve geom geom_bool distance haversine _ic_locations _route_geometries
                   (App.route_name_map geom _route_geometries
                                       (unique (List.map App.sc_route_name
                                                    _section_counts)))
                   row = Some (p0, p1)
    /\ mr = {| App.mr_route_name := App.sc_route_name row;
               App.mr_section := App.sc_section_name row;
               App.mr_count := App.sc_count row;
               App.mr_length := App.sc_length row;
               App.start_lon := x p0; App.start_lat := y p0;
               App.end_lon := x p1; App.end_lat := y p1 |}.
Proof.
  unfold App.get_map_data. cbv zeta. intros H. apply in_flat_map in H.
  destruct H as [row [Hrow H]].
  destruct (App.resolve _ _ _ _ _ _ _ row) as [[p0 p1]|] eqn:E; [|destruct H].
  destruct H as [<-|[]]. exists row, p0, p1. auto.
Qed.

Lemma flat_map_rows (name_map : list (str * str)) (rows : list App.SectionCount) :
  let out :=
    flat_map (fun row =>
                match App.resolve geom geom_bool distance haversine _ic_locations
                                  _route_geometries name_map row with
                | Some (p0, p1) =>
                    [ {| App.mr_route_name := App.sc_route_name row;
                         App.mr_section := App.sc_section_name row;
                         App.mr_count := App.sc_count row;
                         App.mr_length := App.sc_length row;
                         App.start_lon := x p0; App.start_lat := y p0;
                         App.end_lon := x p1; App.end_lat := y p1 |} ]
                | None => []
                end) rows in
  (NoDup (List.map (fun r => (App.sc_route_name r, App.sc_section_name r)) rows) ->
   NoDup (List.map (fun m => (App.mr_route_name m, App.mr_section m)) out))
  /\ (Forall (fun r => 0 <= App.sc_count r) rows ->
      total (List.map App.mr_count out) <= total (List.map App.sc_count rows))
  /\ incl (List.map (fun m => (App.mr_route_name m, App.mr_section m)) out)
          (List.map (fun r => (App.sc_route_name r, App.sc_section_name r)) rows).
Proof.
  cbv zeta. induction rows as [|row rows [IH1 [IH2 IH3]]].
  - repeat split; simpl; try constructor; try lia. intros a [].
  - cbn [flat_map List.map].
    destruct (App.resolve _ _ _ _ _ _ name_map row) as [[p0 p1]|]; cbn [app List.map];
      cbn [App.mr_route_name App.mr_section App.mr_count]; split; [|split| |split].
    + intros H. inversion H; subst. constructor; [|auto].
      intros Hin. apply IH3 in Hin. contradiction.
    + intros H. inversion H; subst. specialize (IH2 H3). unfold total in *. simpl. lia.
    + intros a [<-|Ha]; [left; reflexivity | right; apply IH3, Ha].
    + intros H. inversion H; subst. auto.
    + intros H. inversion H; subst. specialize (IH2 H3). unfold total in *. simpl. lia.
    + intros a Ha. right. apply IH3, Ha.
Qed.

End MapRowFacts.

(** X10: the map table of [app.py] has at most one row per raw (route,
    section) pair; the count of a row is the number of filtered incidents with
    exactly that pair (at least 1), and the counts on the map add up to no
    more than the number of filtered incidents. *)
Theorem map_df_counts
        (geom : Type) (geom_bool : geom -> bool)
        (distance : Shapely.Point -> geom -> float)
        (haversine : float * float -> float * float -> float)
        (_ic_locations : list (str * list Shapely.Point))
        (_route_geometries : list (str * geom))
        (filtered_df : list App.IncidentRecord) :
  let map_df :=
    App.map_df geom geom_bool distance haversine _ic_locations _route_geometries
               filtered_df in
  NoDup (List.map (fun m => (App.mr_route_name m, App.mr_section m)) map_df)
  /\ Forall (fun m =>
               App.mr_count m
               = key_count App.key_cols pair_compare
                           (App.mr_route_name m, App.mr_section m) filtered_df
               /\ 1 <= App.mr_count m)
            map_df
  /\ total (List.map App.mr_count map_df) <= Z.of_nat (List.length filtered_df).
Proof.
  cbv zeta. unfold App.map_df.
  pose proof (app_section_counts_NoDup filtered_df) as N.
  pose proof (app_section_counts_total filtered_df) as T.
  split; [|split].
  - unfold App.get_map_data. cbv zeta. apply flat_map_rows. exact N.
  - apply Forall_forall. intros m Hm. apply get_map_data_In in Hm.
    destruct Hm as [row [p0 [p1 [Hrow [_ ->]]]]].
    cbn [App.mr_count App.mr_route_name App.mr_section].
    apply section_counts_row_count, Hrow.
  - rewrite <- T. unfold App.get_map_data. cbv zeta. apply flat_map_rows.
    apply Forall_forall. intros r Hr.
    pose proof (section_counts_row_count filtered_df r Hr). lia.
Qed.

(** * More on the resolver of [app.py] *)

Section OrderFacts.

Lemma SFcompare_Lt_trans (u v w : spec_float) :
  SFcompare u v = Some Lt -> SFcompare v w = Some Lt -> SFcompare u w = Some Lt.
Proof.
  destruct u as [su|su| |su mu eu], v as [sv|sv| |sv mv ev], w as [sw|sw| |sw mw ew];
    simpl; try discriminate; try reflexivity;
    try (destruct su; try discriminate; try reflexivity; fail);
    try (destruct sv; try discriminate; try reflexivity; fail);
    try (destruct sw; try discriminate; try reflexivity; fail);
    try (destruct su, sv; try discriminate; try reflexivity; fail);
    try (destruct sv, sw; try discriminate; try reflexivity; fail);
    try (destruct su, sw; try discriminate; try reflexivity; fail);
    try (destruct su, sv, sw; try discriminate; try reflexivity; fail).
  change (Pos.compare_cont Eq mu mv) with (Pos.compare mu mv).
  change (Pos.compare_cont Eq mv mw) with (Pos.compare mv mw).
  change (Pos.compare_cont Eq mu mw) with (Pos.compare mu mw).
  destruct su, sv, sw; try discriminate; try reflexivity;
    destruct (Z.compare_spec eu ev), (Z.compare_spec ev ew), (Z.compare_spec eu ew);
    try discriminate; try reflexivity; try lia; subst;
    destruct (Pos.compare_spec mu mv), (Pos.compare_spec mv mw),
             (Pos.compare_spec mu mw);
    simpl; try discriminate; try reflexivity; try lia.
Qed.

Lemma float_lt_trans (a b c : float) :
  (a <? b)%float = true -> (b <? c)%float = true -> (a <? c)%float = true.
Proof.
  rewrite !ltb_spec. unfold SFltb.
  destruct (SFcompare (Prim2SF a) (Prim2SF b)) as [[| |]|] eqn:E1; try discriminate.
  destruct (SFcompare (Prim2SF b) (Prim2SF c)) as [[| |]|] eqn:E2; try discriminate.
  rewrite (SFcompare_Lt_trans _ _ _ E1 E2). reflexivity.
Qed.

Lemma float_lt_asym (a b : float) : (a <? b)%float = true -> (b <? a)%float = false.
Proof.
  rewrite !ltb_spec. unfold SFltb.
  rewrite (SFcompare_antisym (Prim2SF a) (Prim2SF b)).
  destruct (SFcompare (Prim2SF a) (Prim2SF b)) as [[| |]|]; simpl;
    intros H; try discriminate; reflexivity.
Qed.

Lemma float_lt_irrefl (a : float) : (a <? a)%float = false.
Proof.
  destruct (a <? a)%float eqn:E; [|reflexivity].
  pose proof (float_lt_asym a a E). congruence.
Qed.

End OrderFacts.

Section BestPairMore.

Import Shapely.

Variable haversine : float * float -> float * float -> float.

(** The minimum the loop ends with is at most the one it started with, and
    no pair of the list has a distance above zero below it. *)
Lemma best_pair_loop_min (pairs : list (Point * Point)) :
  forall m b m' b',
    fold_left (App.best_pair_step haversine) pairs (m, b) = (m', b') ->
    (m' = m \/ (m' <? m)%float = true)
    /\ forall q, In q pairs ->
                 (0 <? pair_distance haversine q)%float = true ->
                 (pair_distance haversine q <? m')%float = false.
Proof.
  induction pairs as [|pr pairs IH]; intros m b m' b' H; cbn [fold_left] in H.
  - inversion H. split; [left; reflexivity | intros q []].
  - rewrite best_pair_step_eq in H.
    destruct ((0 <? pair_distance haversine pr)
              && (pair_distance haversine pr <? m))%float eqn:E.
    + apply andb_true_iff in E. destruct E as [E0 Em].
      apply IH in H. destruct H as [Hm Hq]. split.
      * right. destruct Hm as [->|Hm]; [exact Em | eapply float_lt_trans; eauto].
      * intros q [->|Hin] Hpos; [|auto].
        destruct Hm as [->|Hm]; [apply float_lt_irrefl | apply float_lt_asym, Hm].
    + apply IH in H. destruct H as [Hm Hq]. split; [exact Hm|].
      intros q [->|Hin] Hpos; [|auto].
      rewrite Hpos in E. cbn [andb] in E.
      destruct Hm as [->|Hm]; [exact E|].
      destruct (pair_distance haversine q <? m')%float eqn:F; [|reflexivity].
      rewrite (float_lt_trans _ _ _ F Hm) in E. discriminate.
Qed.

Lemma best_pair_minimal (starts ends : list Point) (p q : Point * Point) :
  App.best_pair haversine starts ends = Some p ->
  In q (list_prod starts ends) ->
  (0 <? pair_distance haversine q)%float = true ->
  (pair_distance haversine q <? pair_distance haversine p)%float = false.
Proof.
  unfold App.best_pair, App.best_pair_loop. intros H Hq Hpos.
  destruct (fold_left (App.best_pair_step haversine) (list_prod starts ends)
                      (infinity, None)) as [m' b'] eqn:E.
  simpl in H. subst b'.
  pose proof (best_pair_loop_min _ _ _ _ _ E) as [_ Hmin].
  apply best_pair_loop_inv in E. destruct E as [[_ E]|[r [_ [E [-> _]]]]]; [discriminate|].
  inversion E; subst. auto.
Qed.

Lemma best_pair_None_iff (starts ends : list Point) :
  App.best_pair haversine starts ends = None <->
  forall q, In q (list_prod starts ends) ->
            ((0 <? pair_distance haversine q)
             && (pair_distance haversine q <? infinity))%float = false.
Proof.
  unfold App.best_pair, App.best_pair_loop. split.
  - intros H q Hq.
    destruct (fold_left (App.best_pair_step haversine) (list_prod starts ends)
                        (infinity, None)) as [m' b'] eqn:E.
    simpl in H. subst b'.
    pose proof (best_pair_loop_min _ _ _ _ _ E) as [_ Hmin].
    apply best_pair_loop_inv in E.
    destruct E as [[-> _]|[r [_ [E _]]]]; [|discriminate].
    destruct (0 <? pair_distance haversine q)%float eqn:F; [|reflexivity].
    cbn [andb]. auto.
  - intros H. rewrite best_pair_loop_keeps; [reflexivity | exact H].
Qed.

End BestPairMore.

(** X11: the end points of a map row are candidates of the row's own
    normalised start and end labels that lie within the threshold of the
    route geometry found under the first reference key containing the
    normalised route name, and they are a positive distance apart. *)
Theorem resolved_endpoints_are_candidates
        (geom : Type) (geom_bool : geom -> bool)
        (distance : Shapely.Point -> geom -> float)
        (haversine : float * float -> float * float -> float)
        (_ic_locations : list (str * list Shapely.Point))
        (_route_geometries : list (str * geom))
        (rows : list App.SectionCount) (row : App.SectionCount)
        (s e : Shapely.Point) :
  In row rows ->
  App.resolve geom geom_bool distance haversine _ic_locations _route_geometries
              (App.route_name_map geom _route_geometries
                                  (unique (List.map App.sc_route_name rows)))
              row = Some (s, e) ->
  exists official g,
    App.first_containing (App.normalize_name (PyStr (App.sc_route_name row)) true)
                         (List.map fst _route_geometries) = Some official
    /\ contains (App.normalize_name (PyStr (App.sc_route_name row)) true) official = true
    /\ dict_get _route_geometries official = Some g
    /\ geom_bool g = true
    /\ In s (dict_get_or _ic_locations (App.sc_start_norm row) [])
    /\ (distance s g * 111000 <? 3000)%float = true
    /\ In e (dict_get_or _ic_locations (App.sc_end_norm row) [])
    /\ (distance e g * 111000 <? 3000)%float = true
    /\ (0 <? pair_distance haversine (s, e))%float = true.
Proof.
  intros Hrow H. unfold App.resolve in H.
  assert (Hu : In (App.sc_route_name row) (unique (List.map App.sc_route_name rows))).
  { apply (proj2 (unique_In haversine _ _)).
    exact (in_map App.sc_route_name rows row Hrow). }
  rewrite (route_name_map_get geom _route_geometries _ _ Hu) in H.
  destruct (App.first_containing _ _) as [official|] eqn:F; [|discriminate].
  destruct official as [|c official]; [discriminate|].
  destruct (dict_get _route_geometries (c :: official)) as [g|] eqn:G; [|discriminate].
  destruct (geom_bool g) eqn:B; [|discriminate]. cbn [negb] in H.
  exists (c :: official), g.
  destruct (dict_get_or _ic_locations (App.sc_start_norm row) []) as [|s0 sc];
    [discriminate|].
  destruct (dict_get_or _ic_locations (App.sc_end_norm row) []) as [|e0 ec];
    [discriminate|].
  cbv zeta in H.
  destruct (App.valid_points geom distance g (s0 :: sc)) as [|s1 vs] eqn:Vs; [discriminate|].
  destruct (App.valid_points geom distance g (e0 :: ec)) as [|e1 ve] eqn:Ve; [discriminate|].
  apply best_pair_positive in H. destruct H as [Hin Hpos].
  apply in_prod_iff in Hin. destruct Hin as [Hs He].
  rewrite <- Vs in Hs. rewrite <- Ve in He.
  apply valid_points_In in Hs. apply valid_points_In in He.
  unfold App.first_containing in F. apply find_some in F.
  repeat split; tauto.
Qed.

Lemma resolved_endpoints_are_candidates_witness :
  exists official g,
    App.first_containing (App.normalize_name (PyStr (App.sc_route_name row_halfwidth)) true)
                         (List.map fst sample_route_geometries) = Some official
    /\ contains (App.normalize_name (PyStr (App.sc_route_name row_halfwidth)) true)
                official = true
    /\ dict_get sample_route_geometries official = Some g
    /\ (fun _ : unit => true) g = true
    /\ In ic_south (dict_get_or sample_ic_locations (App.sc_start_norm row_halfwidth) [])
    /\ (on_route ic_south g * 111000 <? 3000)%float = true
    /\ In ic_mid (dict_get_or sample_ic_locations (App.sc_end_norm row_halfwidth) [])
    /\ (on_route ic_mid g * 111000 <? 3000)%float = true
    /\ (0 <? pair_distance meridian_gap (ic_south, ic_mid))%float = true.
Proof.
  apply (resolved_endpoints_are_candidates
           unit (fun _ => true) on_route meridian_gap sample_ic_locations
           sample_route_geometries [row_halfwidth] row_halfwidth ic_south ic_mid).
  - left. reflexivity.
  - vm_compute. reflexivity.
Defined.

(** X12: the pair the loop selects has the smallest distance above zero: no
    pair of the cross product has a distance above zero that is strictly
    smaller. *)
Theorem selected_pair_is_nearest
        (haversine : float * float -> float * float -> float)
        (starts ends : list Shapely.Point) (p q : Shapely.Point * Shapely.Point) :
  App.best_pair haversine starts ends = Some p ->
  In q (list_prod starts ends) ->
  (0 <? pair_distance haversine q)%float = true ->
  (pair_distance haversine q <? pair_distance haversine p)%float = false
  /\ In p (list_prod starts ends)
  /\ (0 <? pair_distance haversine p)%float = true.
Proof.
  intros H Hq Hpos. split; [eapply best_pair_minimal; eauto|].
  apply best_pair_positive, H.
Qed.

Lemma selected_pair_is_nearest_witness :
  (pair_distance meridian_gap (ic_north, ic_south)
   <? pair_distance meridian_gap (ic_mid, ic_south))%float = false.
Proof.
  apply (selected_pair_is_nearest meridian_gap [ic_north; ic_mid; ic_south] [ic_south]
                                  (ic_mid, ic_south) (ic_north, ic_south)).
  - vm_compute. reflexivity.
  - left. reflexivity.
  - vm_compute. reflexivity.
Defined.

(** X13: the loop selects no pair exactly when no pair of the cross product
    has a finite distance above zero; so a section whose surviving
    candidates include one such pair always gets end points. *)
Theorem best_pair_fails_iff_no_positive_pair
        (haversine : float * float -> float * float -> float)
        (starts ends : list Shapely.Point) :
  App.best_pair haversine starts ends = None <->
  forall q, In q (list_prod starts ends) ->
            ((0 <? pair_distance haversine q)
             && (pair_distance haversine q <? infinity))%float = false.
Proof. apply best_pair_None_iff. Qed.

Lemma best_pair_fails_iff_no_positive_pair_witness :
  App.best_pair meridian_gap [ic_south] [ic_south] = None.
Proof.
  apply (proj2 (best_pair_fails_iff_no_positive_pair meridian_gap [ic_south] [ic_south])).
  intros q [<-|[]]. vm_compute. reflexivity.
Defined.

Section RouteMatchFacts.

Lemma contains_refl (s : str) : contains s s = true.
Proof.
  destruct s as [|c s]; [reflexivity|].
  change (contains (c :: s) (c :: s))
    with (startswith (c :: s) (c :: s) || contains (c :: s) s).
  rewrite <- (app_nil_r (c :: s)) at 2. rewrite startswith_app_self. reflexivity.
Qed.

Lemma contains_empty (s : str) : contains [] s = true.
Proof. destruct s; reflexivity. Qed.

(** [find] returns the first element that passes the test. *)
Lemma find_first (A : Type) (f : A -> bool) (l : list A) (a : A) :
  find f l = Some a ->
  exists l1 l2, l = l1 ++ a :: l2 /\ f a = true /\ Forall (fun b => f b = false) l1.
Proof.
  induction l as [|b l IH]; [discriminate|]. simpl. destruct (f b) eqn:E.
  - intros H. inversion H; subst. exists [], l. repeat split; auto.
  - intros H. destruct (IH H) as [l1 [l2 [-> [Ha Hl]]]].
    exists (b :: l1), l2. repeat split; auto.
Qed.

Lemma find_None_Forall (A : Type) (f : A -> bool) (l : list A) :
  find f l = None <-> Forall (fun b => f b = false) l.
Proof.
  induction l as [|b l IH]; simpl; [split; [constructor | reflexivity]|].
  destruct (f b) eqn:E.
  - split; [discriminate|]. intros H. inversion H; congruence.
  - rewrite IH. split; [constructor; assumption | intros H; inversion H; assumption].
Qed.

Lemma split_no_separator (sep : char) (s : str) : ~ In sep s -> split sep s = [s].
Proof.
  induction s as [|c s IH]; [reflexivity|]. intros H. simpl. unfold char_eqb.
  destruct (Z.eqb_spec c sep) as [->|_]; [exfalso; apply H; left; reflexivity|].
  rewrite IH; [reflexivity|]. intros Hin. apply H. right. exact Hin.
Qed.

Lemma split_at_separator (sep : char) (a rest : str) :
  ~ In sep a -> split sep (a ++ sep :: rest) = a :: split sep rest.
Proof.
  induction a as [|c a IH]; intros H.
  - simpl. unfold char_eqb. rewrite Z.eqb_refl. reflexivity.
  - cbn [app split]. unfold char_eqb.
    destruct (Z.eqb_spec c sep) as [->|_]; [exfalso; apply H; left; reflexivity|].
    rewrite IH; [reflexivity|]. intros Hin. apply H. right. exact Hin.
Qed.

End RouteMatchFacts.

(** X14: a route name of the incident table is mapped to the first key of
    the route index, in its iteration order, that contains the normalised
    name, and to none only if no key contains it; a name whose normalised
    form is itself a key is therefore always mapped. *)
Theorem route_match_is_first_containing
        (geom : Type) (_route_geometries : list (str * geom))
        (csv_routes_raw : list str) (csv_name : str) :
  In csv_name csv_routes_raw ->
  let norm_csv_name := App.normalize_name (PyStr csv_name) true in
  let entry :=
    dict_get (App.route_name_map geom _route_geometries csv_routes_raw) csv_name in
  (forall shp_name,
      entry = Some shp_name ->
      exists l1 l2,
        List.map fst _route_geometries = l1 ++ shp_name :: l2
        /\ contains norm_csv_name shp_name = true
        /\ Forall (fun k => contains norm_csv_name k = false) l1)
  /\ (entry = None <->
      Forall (fun k => contains norm_csv_name k = false) (List.map fst _route_geometries))
  /\ (In norm_csv_name (List.map fst _route_geometries) -> entry <> None).
Proof.
  intros Hin. cbv zeta. rewrite (route_name_map_get geom _route_geometries _ _ Hin).
  unfold App.first_containing. split; [|split].
  - intros shp_name H. apply find_first in H. exact H.
  - apply find_None_Forall.
  - intros Hk H. apply find_None_Forall in H. rewrite Forall_forall in H.
    specialize (H _ Hk). rewrite contains_refl in H. discriminate.
Qed.

Lemma route_match_is_first_containing_witness :
  dict_get (App.route_name_map unit sample_route_geometries [lit "Joban"]) (lit "Joban")
  <> None.
Proof.
  apply (proj2 (proj2 (route_match_is_first_containing
                         unit sample_route_geometries [lit "Joban"] (lit "Joban")
                         (or_introl eq_refl)))).
  left. reflexivity.
Defined.

(** X15: a route name whose normalised form is empty (the empty string, blanks,
    or nothing but the road character) is contained in every key, so it is
    mapped to the first key of the route index. *)
Theorem empty_route_name_matches_first_key
        (geom : Type) (k0 : str) (g0 : geom) (rest : list (str * geom))
        (csv_routes_raw : list str) (csv_name : str) :
  In csv_name csv_routes_raw ->
  App.normalize_name (PyStr csv_name) true = [] ->
  dict_get (App.route_name_map geom ((k0, g0) :: rest) csv_routes_raw) csv_name = Some k0.
Proof.
  intros Hin Hn. rewrite (route_name_map_get geom _ _ _ Hin), Hn.
  unfold App.first_containing. cbn [List.map fst find]. rewrite contains_empty. reflexivity.
Qed.

Lemma empty_route_name_matches_first_key_witness :
  dict_get (App.route_name_map unit [(lit "Joban", tt); (lit "Tohoku", tt)]
                               [[road_char]]) [road_char]
  = Some (lit "Joban").
Proof.
  apply (empty_route_name_matches_first_key unit (lit "Joban") tt [(lit "Tohoku", tt)]
                                            [[road_char]] [road_char]).
  - left. reflexivity.
  - reflexivity.
Defined.

(** X16: a section label without the separator '〜' is kept whole as the
    start label and gets the empty end label; such a row resolves only if the
    interchange index has an entry under the empty name. *)
Theorem section_without_separator
        (geom : Type) (geom_bool : geom -> bool)
        (distance : Shapely.Point -> geom -> float)
        (haversine : float * float -> float * float -> float)
        (_ic_locations : list (str * list Shapely.Point))
        (_route_geometries : list (str * geom))
        (filtered_df : list App.IncidentRecord) (row : App.SectionCount)
        (name_map : list (str * str)) :
  In row (App.section_counts filtered_df) ->
  ~ In wave_dash (App.sc_section_name row) ->
  App.sc_start_norm row = App.normalize_name (PyStr (App.sc_section_name row)) false
  /\ App.sc_end_norm row = []
  /\ (dict_get _ic_locations [] = None ->
      App.resolve geom geom_bool distance haversine _ic_locations _route_geometries
                  name_map row = None).
Proof.
  intros Hrow Hsep.
  destruct (section_counts_norms filtered_df row Hrow) as [Hs He].
  unfold start_norm_of in Hs. unfold end_norm_of in He.
  rewrite (split_no_separator _ _ Hsep) in Hs, He.
  split; [exact Hs|]. split; [exact He|].
  intros Hic.
  assert (E : dict_get_or _ic_locations [] ([] : list Shapely.Point) = [])
    by (unfold dict_get_or; rewrite Hic; reflexivity).
  assert (He' : App.sc_end_norm row = []) by exact He.
  unfold App.resolve. rewrite He', E.
  destruct (dict_get name_map (App.sc_route_name row)) as [[|c official]|]; try reflexivity.
  destruct (dict_get _route_geometries (c :: official)) as [g|]; [|reflexivity].
  destruct (negb (geom_bool g)); [reflexivity|].
  destruct (dict_get_or _ic_locations (App.sc_start_norm row) []); reflexivity.
Qed.

Lemma section_without_separator_witness :
  List.map (fun row => (App.sc_start_norm row, App.sc_end_norm row))
      (App.section_counts [{| App.csv_route_name := lit "Joban";
                              App.csv_section_name := lit "Mito IC";
                              App.csv_length := 10 |}])
  = [(mito, [])].
Proof.
  pose proof (section_without_separator
                unit (fun _ => true) on_route meridian_gap sample_ic_locations
                sample_route_geometries
                [{| App.csv_route_name := lit "Joban";
                    App.csv_section_name := lit "Mito IC";
                    App.csv_length := 10 |}]) as T.
  vm_compute App.section_counts in *.
  destruct (T _ [] (or_introl eq_refl)) as [Hs [He _]].
  - vm_compute. intros [H|[H|[H|[H|[H|[H|[H|[]]]]]]]]; discriminate.
  - cbn [List.map]. rewrite Hs, He. vm_compute. reflexivity.
Defined.

(** X17: in a section label the text before the first separator is the start
    label and the text between the first and the second separator (or the
    end) is the end label; anything after a second separator is ignored. *)
Theorem section_label_parts (a b rest : str) :
  ~ In wave_dash a -> ~ In wave_dash b ->
  start_norm_of (a ++ [wave_dash] ++ b) = App.normalize_name (PyStr a) false
  /\ end_norm_of (a ++ [wave_dash] ++ b) = App.normalize_name (PyStr b) false
  /\ start_norm_of (a ++ [wave_dash] ++ b ++ [wave_dash] ++ rest)
     = App.normalize_name (PyStr a) false
  /\ end_norm_of (a ++ [wave_dash] ++ b ++ [wave_dash] ++ rest)
     = App.normalize_name (PyStr b) false.
Proof.
  intros Ha Hb. unfold start_norm_of, end_norm_of. cbn [app].
  rewrite !(split_at_separator wave_dash a) by exact Ha.
  rewrite (split_no_separator wave_dash b Hb).
  rewrite (split_at_separator wave_dash b rest Hb).
  repeat split; reflexivity.
Qed.

Lemma section_label_parts_witness :
  end_norm_of (lit "MitoIC" ++ [wave_dash] ++ lit "NakaIC" ++ [wave_dash] ++ lit "x")
  = App.normalize_name (PyStr (lit "NakaIC")) false.
Proof.
  apply (section_label_parts (lit "MitoIC") (lit "NakaIC") (lit "x")).
  - vm_compute. intros [H|[H|[H|[H|[H|[H|[]]]]]]]; discriminate.
  - vm_compute. intros [H|[H|[H|[H|[H|[H|[]]]]]]]; discriminate.
Defined.

(** * The reference indices of [load_data] *)

Section ListGroups.

Variables R V : Type.
Variable key : R -> str.
Variable val : R -> V.

(** The list collected for a key, or the empty list. *)
Lemma fold_insert_collect (k : str) (rs : list R) :
  forall gs,
    StronglySorted (key_lt str_compare) gs ->
    match group_get str_compare k
                    (fold_left (fun gs r =>
                                  group_insert key str_compare
                                               (fun r => [val r])
                                               (fun a r => a ++ [val r]) r gs)
                               rs gs)
    with Some l => l | None => [] end
    = match group_get str_compare k gs with Some l => l | None => [] end
      ++ List.map val (filter (fun r => str_eqb k (key r)) rs).
Proof.
  induction rs as [|r rs IH]; intros gs Hs; cbn [fold_left filter List.map].
  - rewrite app_nil_r. reflexivity.
  - rewrite IH.
    + rewrite group_get_insert;
        [|apply str_compare_eq|apply str_compare_trans|exact Hs].
      rewrite (str_compare_eqb k (key r)).
      destruct (str_compare k (key r)) eqn:E; cbn [List.map]; rewrite ?app_nil_r;
        try reflexivity.
      apply str_compare_eq in E. subst k.
      destruct (group_get str_compare (key r) gs); [rewrite <- app_assoc|]; reflexivity.
    + apply group_insert_sorted;
        [apply str_compare_antisym|apply str_compare_trans|exact Hs].
Qed.

Lemma groupby_collect (k : str) (rs : list R) :
  match group_get str_compare k
                  (groupby key str_compare (fun r => [val r]) (fun a r => a ++ [val r]) rs)
  with Some l => l | None => [] end
  = List.map val (filter (fun r => str_eqb k (key r)) rs).
Proof.
  unfold groupby. rewrite fold_insert_collect; [reflexivity | constructor].
Qed.

(** A key has a group exactly when some record has it. *)
Lemma groupby_get_None (k : str) (rs : list R) :
  group_get str_compare k
            (groupby key str_compare (fun r => [val r]) (fun a r => a ++ [val r]) rs)
  = None
  <-> filter (fun r => str_eqb k (key r)) rs = [].
Proof.
  pose proof (groupby_count str R (list V) key str_compare
                            (fun r => [val r]) (fun a r => a ++ [val r])
                            str_compare_eq str_compare_antisym str_compare_trans
                            (fun a => Z.of_nat (List.length a))
                            (fun _ => eq_refl)) as C.
  assert (S : forall (a : list V) (r : R),
             Z.of_nat (List.length (a ++ [val r])) = Z.of_nat (List.length a) + 1)
    by (intros a r; rewrite length_app; simpl; lia).
  specialize (C S k rs).
  pose proof (groupby_collect k rs) as L.
  unfold key_count in C.
  assert (F : filter (fun r => match str_compare k (key r) with Eq => true | _ => false end) rs
              = filter (fun r => str_eqb k (key r)) rs).
  { apply filter_ext. intros r. symmetry. apply str_compare_eqb. }
  rewrite F in C.
  pose proof (groupby_positive str R (list V) key str_compare
                               (fun r => [val r]) (fun a r => a ++ [val r])
                               (fun a => Z.of_nat (List.length a))
                               (fun _ => eq_refl) S rs) as P.
  rewrite Forall_forall in P.
  destruct (group_get str_compare k _) as [l|] eqn:G.
  - split; [discriminate|]. intros E. exfalso.
    unfold group_get in G.
    destruct (find _ _) as [g|] eqn:Fg; [|discriminate].
    apply find_some in Fg. destruct Fg as [Hg _]. specialize (P g Hg).
    injection G as G'. rewrite G', L, E in P. simpl in P. lia.
  - split; [|reflexivity]. intros _.
    destruct (filter (fun r => str_eqb k (key r)) rs); [reflexivity|].
    simpl in C. lia.
Qed.

End ListGroups.

Section IndexFacts.

Lemma dict_get_group_get (V : Type) (d : list (str * V)) (k : str) :
  dict_get d k = group_get str_compare k d.
Proof.
  induction d as [|[k0 v] d IH]; [reflexivity|].
  rewrite (group_get_cons str V str_compare). cbn [dict_get].
  rewrite str_eqb_sym, (str_compare_eqb k k0), IH.
  destruct (str_compare k k0); reflexivity.
Qed.

Lemma dict_get_map_values (V W : Type) (f : V -> W) (d : list (str * V)) (k : str) :
  dict_get (List.map (fun g => (fst g, f (snd g))) d) k = option_map f (dict_get d k).
Proof.
  induction d as [|[k0 v] d IH]; [reflexivity|].
  cbn [List.map dict_get fst snd]. destruct (str_eqb k0 k); [reflexivity | exact IH].
Qed.

(** The first element of a strictly increasing list that passes a test is the
    least one that does. *)
Lemma find_sorted_least (f : str -> bool) (l : list str) (k k' : str) :
  StronglySorted (fun a b => str_compare a b = Lt) l ->
  find f l = Some k -> In k' l -> f k' = true -> str_compare k k' <> Gt.
Proof.
  induction 1 as [|a l Hs IH Hf]; [discriminate|]. simpl. destruct (f a) eqn:E.
  - intros H [<-|Hin] _; inversion H; subst.
    + rewrite (proj2 (str_compare_eq k k) eq_refl). discriminate.
    + rewrite Forall_forall in Hf. rewrite (Hf k' Hin). discriminate.
  - intros H [<-|Hin] Hk'; [congruence | auto].
Qed.

End IndexFacts.

(** X18: the interchange index built by [load_data] returns, for any key,
    exactly the points of the rows of the interchange file whose
    PLACE-normalised name is that key, in file order, and the empty list for
    a key no row has. *)
Theorem ic_locations_lookup (ic_gdf : list AppData.Joint) (k : str) :
  dict_get_or (AppData.ic_locations ic_gdf) k []
  = List.map AppData.joint_geometry
        (filter (fun r => str_eqb k (App.normalize_name (AppData.N06_018 r) false)) ic_gdf).
Proof.
  unfold dict_get_or, AppData.ic_locations. rewrite dict_get_group_get.
  apply groupby_collect.
Qed.

(** X19: the route index built by [load_data] has, under a key, the union of
    exactly the lines whose ROUTE-normalised route name is that key, in file
    order, and no entry for a key no line has. *)
Theorem route_geometries_lookup
        (line geom : Type) (union_all : list line -> geom)
        (sections_gdf : list (AppData.HighwaySection line)) (k : str) :
  dict_get (AppData.route_geometries line geom union_all sections_gdf) k
  = match filter (fun r => str_eqb k (App.normalize_name (AppData.N06_007 r) true))
                 sections_gdf with
    | [] => None
    | rows => Some (union_all (List.map AppData.section_geometry rows))
    end.
Proof.
  unfold AppData.route_geometries. rewrite dict_get_map_values, dict_get_group_get.
  pose proof (groupby_collect (AppData.HighwaySection line) line
                              (fun r => App.normalize_name (AppData.N06_007 r) true)
                              AppData.section_geometry k sections_gdf) as L.
  pose proof (groupby_get_None (AppData.HighwaySection line) line
                               (fun r => App.normalize_name (AppData.N06_007 r) true)
                               AppData.section_geometry k sections_gdf) as N.
  destruct (group_get str_compare k _) as [l|].
  - subst l. cbn [option_map].
    destruct (filter _ sections_gdf) as [|r rows] eqn:E; [|reflexivity].
    destruct N as [_ N]. specialize (N eq_refl). discriminate.
  - destruct N as [N _]. rewrite (N eq_refl). reflexivity.
Qed.

(** X20: the keys of the route index are in strictly increasing code point
    order, so the reference route a name is matched to is the least key that
    contains the normalised name. *)
Theorem route_match_is_least_key
        (line geom : Type) (union_all : list line -> geom)
        (sections_gdf : list (AppData.HighwaySection line))
        (norm_csv_name shp_name other : str) :
  let keys := List.map fst (AppData.route_geometries line geom union_all sections_gdf) in
  App.first_containing norm_csv_name keys = Some shp_name ->
  In other keys -> contains norm_csv_name other = true ->
  StronglySorted (fun a b => str_compare a b = Lt) keys
  /\ str_compare shp_name other <> Gt.
Proof.
  cbv zeta. intros H Hin Hc.
  assert (S : StronglySorted
                (fun a b => str_compare a b = Lt)
                (List.map fst (AppData.route_geometries line geom union_all sections_gdf))).
  { unfold AppData.route_geometries. rewrite map_map. cbn [fst].
    eapply StronglySorted_map;
      [|apply groupby_sorted; [apply str_compare_antisym | apply str_compare_trans]].
    intros a b Hab. exact Hab. }
  split; [exact S|]. eapply find_sorted_least; eauto.
Qed.

Lemma route_match_is_least_key_witness :
  str_compare (lit "A") (lit "AB") <> Gt.
Proof.
  apply (route_match_is_least_key
           unit nat (fun l => List.length l)
           [ {| AppData.N06_007 := PyStr (lit "AB"); AppData.section_geometry := tt |};
             {| AppData.N06_007 := PyStr (lit "A"); AppData.section_geometry := tt |} ]
           (lit "A") (lit "A") (lit "AB")).
  - vm_compute. reflexivity.
  - vm_compute. right. left. reflexivity.
  - vm_compute. reflexivity.
Defined.

(** * More on the pre-cut variant *)

Section LabelFacts.

Lemma fold_char_isspace_eq (c : char) : isspace (fold_char c) = isspace c.
Proof.
  destruct (isspace c) eqn:E; [apply fold_char_isspace, E|].
  unfold fold_char. destruct (is_fullwidth c) eqn:F.
  - unfold is_fullwidth in F. apply andb_true_iff in F. destruct F as [F1 F2].
    apply Z.leb_le in F1, F2.
    assert (N : (c - 0xFEE0 =? ideographic_space) = false)
      by (apply Z.eqb_neq; unfold ideographic_space; lia).
    rewrite N. unfold isspace.
    repeat match goal with
           | |- context [Z.leb ?a ?b] => destruct (Z.leb_spec a b); try lia
           | |- context [Z.eqb ?a ?b] => destruct (Z.eqb_spec a b); try lia
           end; reflexivity.
  - destruct (Z.eqb_spec c ideographic_space) as [->|_]; [discriminate | exact E].
Qed.

Lemma rstrip_fixed (x : str) :
  match rev x with [] => true | c :: _ => negb (isspace c) end = true -> rstrip x = x.
Proof.
  intros H. unfold rstrip. rewrite (lstrip_fixed _ H). apply rev_involutive.
Qed.

(** A string without a blank at its end keeps this through folding and
    [lstrip]. *)
Lemma lstrip_fold_no_trailing (a : str) :
  match rev a with [] => true | c :: _ => negb (isspace c) end = true ->
  rstrip (lstrip (List.map fold_char a)) = lstrip (List.map fold_char a).
Proof.
  intros H. apply rstrip_fixed.
  destruct (lstrip_suffix (List.map fold_char a)) as [w Hw].
  destruct (rev (lstrip (List.map fold_char a))) as [|c r] eqn:E; [reflexivity|].
  assert (R : rev (List.map fold_char a) = c :: r ++ rev w).
  { rewrite Hw, rev_app_distr, E. reflexivity. }
  rewrite <- map_rev in R. destruct (rev a) as [|d t]; [discriminate|].
  simpl in R. inversion R; subst. rewrite fold_char_isspace_eq. exact H.
Qed.

Lemma lstrip_fold_no_leading (b : str) :
  match b with [] => true | c :: _ => negb (isspace c) end = true ->
  lstrip (List.map fold_char b) = List.map fold_char b.
Proof.
  intros H. apply lstrip_fixed. destruct b as [|c b]; [reflexivity|].
  simpl. rewrite fold_char_isspace_eq. exact H.
Qed.

(** The incident key of a label "a〜b": only the blanks at the two outer
    ends are trimmed. *)
Lemma roadkill_map_label_key (a b : str) :
  RoadkillMap.normalize_name (PyStr (a ++ [wave_dash] ++ b))
  = lstrip (List.map fold_char a) ++ [wave_dash] ++ rstrip (List.map fold_char b).
Proof.
  unfold RoadkillMap.normalize_name. rewrite folding_steps_map, !map_app.
  change (List.map fold_char [wave_dash]) with [wave_dash].
  unfold strip. cbn [app].
  rewrite (lstrip_app_word (List.map fold_char a) (wave_dash :: List.map fold_char b))
    by reflexivity.
  unfold rstrip at 1. rewrite rev_app_distr. cbn [rev]. rewrite <- app_assoc. cbn [app].
  rewrite (lstrip_app_word (rev (List.map fold_char b))
                           (wave_dash :: rev (lstrip (List.map fold_char a))))
    by reflexivity.
  rewrite rev_app_distr. cbn [rev]. rewrite rev_involutive, <- app_assoc. reflexivity.
Qed.

Lemma roadkill_map_label_matches (a b : str) :
  match rev a with [] => true | c :: _ => negb (isspace c) end = true ->
  match b with [] => true | c :: _ => negb (isspace c) end = true ->
  RoadkillMap.normalize_name (PyStr (a ++ [wave_dash] ++ b))
  = RoadkillMap.normalize_name (PyStr a) ++ [wave_dash]
    ++ RoadkillMap.normalize_name (PyStr b).
Proof.
  intros Ha Hb. rewrite roadkill_map_label_key.
  unfold RoadkillMap.normalize_name. rewrite !folding_steps_map. unfold strip.
  rewrite (lstrip_fold_no_trailing a Ha), (lstrip_fold_no_leading b Hb). reflexivity.
Qed.

Lemma key_count_positive (K R : Type) (key : R -> K) (cmp : K -> K -> comparison)
      (k : K) (rs : list R) (r : R) :
  In r rs -> cmp k (key r) = Eq -> 1 <= key_count key cmp k rs.
Proof.
  intros Hin E. unfold key_count.
  assert (H : In r (filter (fun r => match cmp k (key r) with Eq => true | _ => false end)
                           rs))
    by (apply filter_In; split; [exact Hin | rewrite E; reflexivity]).
  destruct (filter _ rs); [destruct H | simpl; lia].
Qed.

Lemma precut_counts_positive (filtered_df : list RoadkillMap.IncidentRecord)
      (r : RoadkillMap.SectionCount) :
  In r (RoadkillMap.section_counts filtered_df) -> 1 <= RoadkillMap.sc_count r.
Proof.
  unfold RoadkillMap.section_counts. destruct filtered_df as [|r0 df]; [intros []|].
  intros Hr. apply in_map_iff in Hr. destruct Hr as [g [<- Hg]].
  cbn [RoadkillMap.sc_count].
  pose proof (groupby_positive str RoadkillMap.IncidentRecord (Z * float * str)
                               RoadkillMap.section_norm_of str_compare
                               (fun r => (1, RoadkillMap.csv_length r,
                                          RoadkillMap.csv_route_name r))
                               (fun a r => (fst (fst a) + 1,
                                            fillna (snd (fst a)) (RoadkillMap.csv_length r),
                                            snd a))
                               (fun a => fst (fst a)) (fun _ => eq_refl)
                               (fun _ _ => eq_refl) (r0 :: df)) as P.
  rewrite Forall_forall in P. exact (P g Hg).
Qed.

(** A key some incident has is found in the grouped table, with the number
    of incidents that have it. *)
Lemma lookup_section_present (filtered_df : list RoadkillMap.IncidentRecord)
      (r : RoadkillMap.IncidentRecord) (k : str) :
  In r filtered_df -> RoadkillMap.section_norm_of r = k ->
  exists row,
    RoadkillMap.lookup_section (RoadkillMap.section_counts filtered_df) k = Some row
    /\ RoadkillMap.sc_count row
       = key_count RoadkillMap.section_norm_of str_compare k filtered_df
    /\ 1 <= RoadkillMap.sc_count row.
Proof.
  intros Hin Hk. pose proof (lookup_section_count filtered_df k) as C.
  assert (P : 1 <= key_count RoadkillMap.section_norm_of str_compare k filtered_df).
  { apply (key_count_positive _ _ _ _ _ _ r Hin). apply str_compare_eq. auto. }
  destruct (RoadkillMap.lookup_section _ k) as [row|]; [|lia].
  exists row. repeat split; [exact C | lia].
Qed.

End LabelFacts.

(** X21: an incident whose section label is "a〜b", with no blank before or
    after the separator, has the key start〜end of the reference segment from
    [a] to [b]; that segment is then attributed exactly the incidents with
    this normalised label, at least one. *)
Theorem precut_label_matches_segment
        (geom : Type) (a b : str) (g : option geom)
        (filtered_df : list RoadkillMap.IncidentRecord)
        (r : RoadkillMap.IncidentRecord) :
  In r filtered_df ->
  RoadkillMap.csv_section_name r = a ++ [wave_dash] ++ b ->
  match rev a with [] => true | c :: _ => negb (isspace c) end = true ->
  match b with [] => true | c :: _ => negb (isspace c) end = true ->
  let s := {| RoadkillMap.start_IC := Some a;
              RoadkillMap.end_IC := Some b;
              RoadkillMap.geometry := g |} in
  RoadkillMap.section_norm_of r = RoadkillMap.section_norm_key_1 geom s
  /\ RoadkillMap.mg_count
       (RoadkillMap.attributed (RoadkillMap.section_counts filtered_df) s)
     = key_count RoadkillMap.section_norm_of str_compare
                 (RoadkillMap.section_norm_key_1 geom s) filtered_df
  /\ 1 <= RoadkillMap.mg_count
            (RoadkillMap.attributed (RoadkillMap.section_counts filtered_df) s).
Proof.
  intros Hin Hl Ha Hb. cbv zeta.
  assert (K : RoadkillMap.section_norm_of r
              = RoadkillMap.section_norm_key_1
                  geom {| RoadkillMap.start_IC := Some a;
                          RoadkillMap.end_IC := Some b;
                          RoadkillMap.geometry := g |}).
  { unfold RoadkillMap.section_norm_of. rewrite Hl.
    apply roadkill_map_label_matches; assumption. }
  split; [exact K|].
  destruct (lookup_section_present filtered_df r _ Hin K) as [row [L [C P]]].
  unfold RoadkillMap.attributed. cbv zeta. cbn [RoadkillMap.mg_count].
  rewrite L. split; [exact C | exact P].
Qed.

Lemma precut_label_matches_segment_witness :
  1 <= RoadkillMap.mg_count
         (RoadkillMap.attributed
            (RoadkillMap.section_counts [precut_incident_reversed])
            {| RoadkillMap.start_IC := Some naka;
               RoadkillMap.end_IC := Some mito;
               RoadkillMap.geometry := Some tt |}).
Proof.
  apply (precut_label_matches_segment unit naka mito (Some tt)
                                      [precut_incident_reversed]
                                      precut_incident_reversed).
  - left. reflexivity.
  - reflexivity.
  - reflexivity.
  - reflexivity.
Defined.



(** X7: the start and end names [process_data.py] writes end with a
    designator, and so do both keys of the reference segment in
    [roadkill-map.py]; when no incident has a normalised section label that
    ends with a designator, such a segment is attributed no incident. *)
Theorem suffixed_segment_keys
        (geom : Type) (a b : str) (g : option geom)
        (filtered_df : list RoadkillMap.IncidentRecord) :
  let s := {| RoadkillMap.start_IC := Some (suffixed a);
              RoadkillMap.end_IC := Some (suffixed b);
              RoadkillMap.geometry := g |} in
  ends_with_designator (RoadkillMap.section_norm_key_1 geom s) = true
  /\ ends_with_designator (RoadkillMap.section_norm_key_2 geom s) = true
  /\ (Forall (fun r => ends_with_designator (RoadkillMap.section_norm_of r) = false)
             filtered_df ->
      RoadkillMap.mg_count
        (RoadkillMap.attributed (RoadkillMap.section_counts filtered_df) s) = 0).
Proof.
  cbv zeta.
  assert (K1 : ends_with_designator
                 (RoadkillMap.section_norm_key_1
                    geom {| RoadkillMap.start_IC := Some (suffixed a);
                            RoadkillMap.end_IC := Some (suffixed b);
                            RoadkillMap.geometry := g |}) = true).
  { unfold RoadkillMap.section_norm_key_1.
    apply ends_with_designator_app, ends_with_designator_app.
    unfold RoadkillMap.end_norm. cbn [RoadkillMap.end_IC RoadkillMap.astype_str].
    apply roadkill_map_normalize_keeps_designator, suffixed_ends_with_designator. }
  assert (K2 : ends_with_designator
                 (RoadkillMap.section_norm_key_2
                    geom {| RoadkillMap.start_IC := Some (suffixed a);
                            RoadkillMap.end_IC := Some (suffixed b);
                            RoadkillMap.geometry := g |}) = true).
  { unfold RoadkillMap.section_norm_key_2.
    apply ends_with_designator_app, ends_with_designator_app.
    unfold RoadkillMap.start_norm. cbn [RoadkillMap.start_IC RoadkillMap.astype_str].
    apply roadkill_map_normalize_keeps_designator, suffixed_ends_with_designator. }
  split; [exact K1|]. split; [exact K2|].
  intros H. rewrite Forall_forall in H.
  assert (N : forall k, ends_with_designator k = true ->
                        RoadkillMap.lookup_section
                          (RoadkillMap.section_counts filtered_df) k = None).
  { intros k Hk.
    destruct (RoadkillMap.lookup_section (RoadkillMap.section_counts filtered_df) k)
      as [row|] eqn:L; [|reflexivity].
    exfalso. unfold RoadkillMap.lookup_section in L. apply find_some in L.
    destruct L as [Hrow E]. apply str_eqb_eq in E.
    unfold RoadkillMap.section_counts in Hrow.
    destruct filtered_df as [|r0 df]; [destruct Hrow|].
    apply in_map_iff in Hrow. destruct Hrow as [gr [<- Hg]].
    apply groupby_key_from in Hg. destruct Hg as [r [Hr Er]].
    specialize (H r Hr). cbn [RoadkillMap.section_norm] in E. congruence. }
  unfold RoadkillMap.attributed. cbv zeta. cbn [RoadkillMap.mg_count].
  rewrite (N _ K1), (N _ K2). reflexivity.
Qed.

Lemma suffixed_segment_keys_witness :
  RoadkillMap.mg_count
    (RoadkillMap.attributed
       (RoadkillMap.section_counts
          [{| RoadkillMap.csv_section_name := mito ++ [wave_dash] ++ naka;
              RoadkillMap.csv_length := 10;
              RoadkillMap.csv_route_name := lit "Joban" |}])
       {| RoadkillMap.start_IC := Some (suffixed mito);
          RoadkillMap.end_IC := Some (suffixed naka);
          RoadkillMap.geometry := Some tt |}) = 0.
Proof.
  apply (proj2 (proj2 (suffixed_segment_keys
                         unit mito naka (Some tt)
                         [{| RoadkillMap.csv_section_name := mito ++ [wave_dash] ++ naka;
                             RoadkillMap.csv_length := 10;
                             RoadkillMap.csv_route_name := lit "Joban" |}]))).
  repeat constructor.
Defined.

(** X23: the table below the map lists exactly the reference segments with a
    geometry for which an incident key matches in one of the two orders; a
    segment without a match is drawn on the map and left out of the table. *)
Theorem display_mask_is_matched
        (geom : Type) (sections : list (RoadkillMap.Section_ geom))
        (filtered_df : list RoadkillMap.IncidentRecord) :
  let sc := RoadkillMap.section_counts filtered_df in
  RoadkillMapView.display_mask (RoadkillMap.map_gdf geom sections sc)
  = List.map (RoadkillMap.attributed sc)
        (filter (fun s =>
                   RoadkillMap.has_geometry s
                   && match RoadkillMap.lookup_section
                              sc (RoadkillMap.section_norm_key_1 geom s),
                            RoadkillMap.lookup_section
                              sc (RoadkillMap.section_norm_key_2 geom s) with
                      | None, None => false
                      | _, _ => true
                      end)
                sections).
Proof.
  cbv zeta. unfold RoadkillMapView.display_mask, RoadkillMap.map_gdf. cbv zeta.
  rewrite (assign_attributed geom filtered_df sections), filter_attributed.
  induction sections as [|s l IH]; [reflexivity|].
  cbn [filter]. destruct (RoadkillMap.has_geometry s); cbn [andb List.map filter];
    [|exact IH].
  assert (P : forall k row,
             RoadkillMap.lookup_section (RoadkillMap.section_counts filtered_df) k
             = Some row -> (0 <? RoadkillMap.sc_count row) = true).
  { intros k row L. unfold RoadkillMap.lookup_section in L. apply find_some in L.
    destruct L as [Hrow _]. apply precut_counts_positive in Hrow. apply Z.ltb_lt. lia. }
  unfold RoadkillMap.attributed at 1. cbv zeta. cbn [RoadkillMap.mg_count].
  destruct (RoadkillMap.lookup_section (RoadkillMap.section_counts filtered_df)
                                       (RoadkillMap.section_norm_key_1 geom s))
    as [r1|] eqn:L1.
  - rewrite (P _ _ L1). cbn [List.map]. rewrite IH. reflexivity.
  - destruct (RoadkillMap.lookup_section (RoadkillMap.section_counts filtered_df)
                                         (RoadkillMap.section_norm_key_2 geom s))
      as [r2|] eqn:L2.
    + rewrite (P _ _ L2). cbn [List.map]. rewrite IH. reflexivity.
    + cbn [Z.ltb Z.compare]. exact IH.
Qed.

(** X24: a segment whose length is missing, zero or negative has density 0
    and is drawn in the fixed grey [200, 200, 200, 40], whatever the colour
    scale; this is the colour of every segment without a matching incident
    key. *)
Theorem zero_density_is_grey
        (geom : Type) (gradient : float -> float -> list Z) (max_density : float)
        (count : Z) (length_km : float)
        (section_counts : list RoadkillMap.SectionCount) (s : RoadkillMap.Section_ geom) :
  ((length_km <=? 0)%float = true \/ is_nan length_km = true ->
   RoadkillMapView.get_color gradient (RoadkillMap.count_per_km count length_km)
                             max_density
   = [200; 200; 200; 40])
  /\
  (RoadkillMap.lookup_section section_counts (RoadkillMap.section_norm_key_1 geom s)
   = None ->
   RoadkillMap.lookup_section section_counts (RoadkillMap.section_norm_key_2 geom s)
   = None ->
   let row := RoadkillMap.attributed section_counts s in
   RoadkillMapView.get_color
     gradient
     (RoadkillMap.count_per_km (RoadkillMap.mg_count row) (RoadkillMap.mg_length row))
     max_density
   = [200; 200; 200; 40]).
Proof.
  split.
  - intros H. unfold RoadkillMap.count_per_km.
    assert (E : (0 <? length_km)%float = false)
      by (destruct H as [H|H]; [apply float_le_not_gt, H | apply float_nan_not_gt, H]).
    rewrite E, andb_false_r. reflexivity.
  - intros H1 H2. cbv zeta. unfold RoadkillMap.attributed. rewrite H1, H2. reflexivity.
Qed.

Lemma zero_density_is_grey_witness :
  RoadkillMapView.get_color (fun _ _ => [0; 0; 0; 200])
                            (RoadkillMap.count_per_km 3 0) 2
  = [200; 200; 200; 40]
  /\
  RoadkillMapView.get_color
    (fun _ _ => [0; 0; 0; 200])
    (RoadkillMap.count_per_km
       (RoadkillMap.mg_count (RoadkillMap.attributed [] precut_segment))
       (RoadkillMap.mg_length (RoadkillMap.attributed [] precut_segment)))
    2
  = [200; 200; 200; 40].
Proof.
  split.
  - apply (proj1 (zero_density_is_grey unit (fun _ _ => [0; 0; 0; 200]) 2 3 0
                                       [] precut_segment)).
    left. vm_compute. reflexivity.
  - apply (proj2 (zero_density_is_grey unit (fun _ _ => [0; 0; 0; 200]) 2 3 0
                                       [] precut_segment)); reflexivity.
Defined.

(** * The sidebar filters of [app.py] *)

Section FilterFacts.

Lemma sorted_insert_In (A : Type) (leb : A -> A -> bool) (a b : A) (l : list A) :
  In b (sorted_insert leb a l) <-> b = a \/ In b l.
Proof.
  induction l as [|c l IH]; simpl; [intuition auto|].
  destruct (leb c a); simpl; rewrite ?IH; intuition auto.
Qed.

(** Sorting keeps the values. *)
Lemma sorted_In (A : Type) (leb : A -> A -> bool) (b : A) (l : list A) :
  In b (sorted leb l) <-> In b l.
Proof.
  unfold sorted.
  assert (H : forall acc,
             In b (fold_left (fun acc a => sorted_insert leb a acc) l acc)
             <-> In b acc \/ In b l).
  { induction l as [|a l IH]; intros acc; cbn [fold_left].
    - simpl. tauto.
    - rewrite IH, sorted_insert_In. simpl. intuition auto. }
  rewrite H. simpl. tauto.
Qed.

Lemma unique_Z_from_In (l : list Z) :
  forall seen a, In a (unique_Z_from seen l) <-> In a l /\ ~ In a seen.
Proof.
  induction l as [|b l IH]; intros seen a; simpl; [tauto|].
  destruct (existsb (Z.eqb b) seen) eqn:E.
  - rewrite IH. apply existsb_exists in E. destruct E as [c [Hc E]].
    apply Z.eqb_eq in E. subst c. split; [tauto|].
    intros [[<-|H] Hn]; tauto.
  - assert (Hb : ~ In b seen).
    { intros H. assert (existsb (Z.eqb b) seen = true)
        by (apply existsb_exists; exists b; split; [exact H | apply Z.eqb_refl]).
      congruence. }
    simpl. rewrite IH. simpl. split.
    + intros [<-|[H Hn]]; tauto.
    + intros [[<-|H] Hn]; [tauto|].
      destruct (Z.eq_dec b a) as [->|Hne]; [tauto|].
      right. split; [exact H|]. intros [->|H']; tauto.
Qed.

Lemma unique_Z_In (l : list Z) (a : Z) : In a (unique_Z l) <-> In a l.
Proof. unfold unique_Z. rewrite unique_Z_from_In. simpl. tauto. Qed.

Lemma unique_str_In (l : list str) (a : str) : In a (unique l) <-> In a l.
Proof. exact (unique_In (fun _ _ => 0%float) l a). Qed.

(** Selecting every value a column takes keeps every row. *)
Lemma select_isin_all (A : Type) (eqb : A -> A -> bool) (get : AppData.Row -> A)
      (selected : list A) (df : list AppData.Row) :
  (forall a, eqb a a = true) ->
  (forall r, In r df -> In (get r) selected) ->
  AppData.select_isin eqb get selected df = df.
Proof.
  intros Hrefl H. unfold AppData.select_isin. destruct selected as [|s0 sel] eqn:E.
  - reflexivity.
  - rewrite <- E in *. clear E.
    induction df as [|r df IH]; [reflexivity|]. cbn [filter].
    assert (X : existsb (eqb (get r)) selected = true).
    { apply existsb_exists. exists (get r). split; [apply H; left; reflexivity | apply Hrefl]. }
    rewrite X. f_equal. apply IH. intros r' Hr'. apply H. right. exact Hr'.
Qed.

End FilterFacts.

(** X25: with the default selections of the multiple-selection mode (every
    month, hour, weather and animal of the data, and the seven weekday
    labels) the rows kept are exactly those whose weekday is one of the seven
    labels. *)
Theorem filter_multi_default_selection (roadkill_df : list AppData.Row) :
  AppData.filter_multi roadkill_df
                       (AppData.month_options roadkill_df)
                       (AppData.hour_options roadkill_df)
                       AppData.day_of_week_options
                       (AppData.weather_options roadkill_df)
                       (AppData.animal_options roadkill_df)
  = filter (fun r => existsb (str_eqb (AppData.csv_day_of_week r))
                             AppData.day_of_week_options)
           roadkill_df.
Proof.
  unfold AppData.filter_multi. cbv zeta.
  rewrite (select_isin_all Z Z.eqb AppData.csv_month); [|apply Z.eqb_refl|].
  - rewrite (select_isin_all Z Z.eqb AppData.csv_hour); [|apply Z.eqb_refl|].
    + assert (S : forall A eqb (get : AppData.Row -> A) sel df r,
                 In r (AppData.select_isin eqb get sel df) -> In r df).
      { intros A eqb get sel df r. unfold AppData.select_isin.
        destruct sel; [auto|]. intros H. apply filter_In in H. tauto. }
      rewrite (select_isin_all (list Z) str_eqb AppData.csv_weather);
        [|apply str_eqb_refl|].
      * rewrite (select_isin_all (list Z) str_eqb AppData.csv_animal);
          [reflexivity|apply str_eqb_refl|].
        intros r Hr. apply S in Hr. unfold AppData.animal_options.
        apply sorted_In, unique_str_In, in_map, Hr.
      * intros r Hr. apply S in Hr. unfold AppData.weather_options.
        apply sorted_In, unique_str_In, in_map, Hr.
    + intros r Hr. unfold AppData.hour_options.
      apply sorted_In, unique_Z_In, in_map, Hr.
  - intros r Hr. unfold AppData.month_options.
    apply sorted_In, unique_Z_In, in_map, Hr.
Qed.


